(** * The course-guide scraper (src/main.js): a shallow embedding

    The job fetches a course catalog, one detail page per course under a
    pool of [NUM_OPERATIONS] workers, extracts section records from the
    markup, rolls them up into one summary per course with a capacity
    fallback taken from the previously published overview, and publishes
    the overview and a stub table.

    JavaScript values are modelled as the program uses them:
    - strings are [string]s whose characters stand for code units below 256;
    - numbers are IEEE 754 binary64 values ([spec_float] at precision 53 and
      maximal exponent 1024), with the coercions of ECMAScript
      ([StringToNumber], [NumberToString], [ToNumber], [ToPrimitive]);
    - objects with page-controlled keys are finite maps from strings;
    - a rejected promise or a thrown exception is the [Throw] branch of an
      error monad; the run returns the S3 commands it issued together with
      its outcome;
    - the libraries the program calls (d3-array, async, and the built-in
      Map) are modelled by their documented behaviour on the values that
      reach them. *)

From Stdlib Require Import ZArith QArith Qabs Qround Ascii String DecimalString List Lia.
From Stdlib Require Import Floats.SpecFloat.
From stdpp Require Import base strings gmap list.

Local Open Scope string_scope.

(** ** JavaScript strings *)

Module JsString.

(** WhiteSpace and LineTerminator code units below 256: TAB, LF, VT, FF,
    CR, SP and NBSP.  These are what [trim] strips and what
    [StringToNumber] skips. *)
Definition isWhiteSpace (c : ascii) : bool :=
  let n := N_of_ascii c in
  ((9 <=? n) && (n <=? 13) || (n =? 32) || (n =? 160))%N.

Fixpoint trimStart (s : string) : string :=
  match s with
  | String c t => if isWhiteSpace c then trimStart t else s
  | EmptyString => EmptyString
  end.

(** [trimEnd] keeps a character when anything after it survives or when it
    is not white space itself. *)
Fixpoint trimEnd (s : string) : string :=
  match s with
  | String c t =>
      match trimEnd t with
      | EmptyString => if isWhiteSpace c then EmptyString else String c EmptyString
      | t' => String c t'
      end
  | EmptyString => EmptyString
  end.

Definition trim (s : string) : string := trimEnd (trimStart s).

(** [s.split(sep)] for a one-character separator: the pieces between the
    occurrences of [sep]; never the empty list. *)
Fixpoint split (sep : ascii) (s : string) : list string :=
  match s with
  | EmptyString => [EmptyString]
  | String c t =>
      if Ascii.eqb c sep then EmptyString :: split sep t
      else match split sep t with
           | p :: ps => String c p :: ps
           | [] => [String c EmptyString]
           end
  end.

(** [hay.includes(needle)] *)
Fixpoint includes (hay needle : string) : bool :=
  String.prefix needle hay ||
  match hay with
  | String _ t => includes t needle
  | EmptyString => false
  end.

(** [s.slice(start, end)] with the relative-index rules of
    String.prototype.slice; [None] for an omitted [end]. *)
Definition slice (s : string) (start : Z) (end_ : option Z) : string :=
  let len := Z.of_nat (String.length s) in
  let clamp (i : Z) := if (i <? 0)%Z then Z.max (len + i) 0 else Z.min i len in
  let from := clamp start in
  let to := match end_ with Some e => clamp e | None => len end in
  substring (Z.to_nat from) (Z.to_nat (Z.max (to - from) 0)) s.

End JsString.

(** ** JavaScript numbers *)

Module JsNumber.

Abbreviation number := spec_float.

Local Open Scope Z_scope.

Definition prec : Z := 53.
Definition emax : Z := 1024.

Definition NaN : number := S754_nan.
Definition Infinity : number := S754_infinity false.
Definition zero : number := S754_zero false.

Definition add : number -> number -> number := SFadd prec emax.
Definition div : number -> number -> number := SFdiv prec emax.
Definition lt (x y : number) : bool := SFltb x y.
Definition gt (x y : number) : bool := SFltb y x.
Definition ge (x y : number) : bool := SFleb y x.
Definition isNaN (x : number) : bool :=
  match x with S754_nan => true | _ => false end.

(** ToBoolean on a number: NaN, +0 and -0 are falsy. *)
Definition truthy (x : number) : bool :=
  match x with
  | S754_nan | S754_zero _ => false
  | _ => true
  end.

(** The number nearest to [m * 10^e10], ties to even, with sign [neg]. *)
Definition of_decimal (neg : bool) (m : Z) (e10 : Z) : number :=
  match m with
  | Zpos p =>
      match e10 with
      | Zneg _ => SFdiv prec emax (S754_finite neg p 0)
                    (S754_finite false (Z.to_pos (10 ^ (- e10))) 0)
      | _ => binary_round prec emax neg (Z.to_pos (m * 10 ^ e10)) 0
      end
  | _ => S754_zero neg
  end.

Definition of_Z (z : Z) : number := of_decimal (z <? 0) (Z.abs z) 0.

(** *** StringToNumber *)

Definition digit_of (radix : Z) (c : ascii) : option Z :=
  let n := Z.of_N (N_of_ascii c) in
  let v := if (48 <=? n) && (n <=? 57) then n - 48
           else if (97 <=? n) && (n <=? 102) then n - 87
           else if (65 <=? n) && (n <=? 70) then n - 55
           else 99 in
  if v <? radix then Some v else None.

(** Consumes the longest run of digits of [radix] at the head of [s]:
    the value accumulated on [acc], the count of digits, the rest. *)
Fixpoint digits (radix : Z) (s : string) (acc : Z) (cnt : nat) : Z * nat * string :=
  match s with
  | String c t =>
      match digit_of radix c with
      | Some d => digits radix t (radix * acc + d) (S cnt)
      | None => (acc, cnt, s)
      end
  | EmptyString => (acc, cnt, s)
  end.

(** NonDecimalIntegerLiteral after its two-character prefix. *)
Definition radix_literal (radix : Z) (s : string) : number :=
  match digits radix s 0 0 with
  | (v, S _, EmptyString) => of_Z v
  | _ => NaN
  end.

(** ExponentPart_opt followed by the end of the literal: the exponent, or
    [None] when the text is not of that shape. *)
Definition exponent_part (s : string) : option Z :=
  match s with
  | EmptyString => Some 0
  | String c t =>
      if Ascii.eqb c "e" || Ascii.eqb c "E" then
        let '(neg, t') :=
          match t with
          | String "+" u => (false, u)
          | String "-" u => (true, u)
          | _ => (false, t)
          end in
        match digits 10 t' 0 0 with
        | (v, S _, EmptyString) => Some (if neg then - v else v)
        | _ => None
        end
      else None
  end.

(** StrUnsignedDecimalLiteral with the sign already read. *)
Definition unsigned_decimal (neg : bool) (s : string) : number :=
  if String.eqb s "Infinity" then S754_infinity neg
  else
    let '(ip, icnt, r1) := digits 10 s 0 0 in
    let '(m, fcnt, r2) :=
      match r1 with
      | String "." t => let '(m, total, r) := digits 10 t ip icnt in
                        (m, (total - icnt)%nat, r)
      | _ => (ip, 0%nat, r1)
      end in
    match (icnt + fcnt)%nat, exponent_part r2 with
    | S _, Some e => of_decimal neg m (e - Z.of_nat fcnt)
    | _, _ => NaN
    end.

Definition StringToNumber (str : string) : number :=
  match JsString.trim str with
  | EmptyString => zero
  | String "0" (String "x" t) | String "0" (String "X" t) => radix_literal 16 t
  | String "0" (String "o" t) | String "0" (String "O" t) => radix_literal 8 t
  | String "0" (String "b" t) | String "0" (String "B" t) => radix_literal 2 t
  | String "+" t => unsigned_decimal false t
  | String "-" t => unsigned_decimal true t
  | s => unsigned_decimal false s
  end.

(** *** Number::toString (radix 10) *)

(** Bitwise identity of two numbers (one NaN; +0 and -0 differ). *)
Definition same (x y : number) : bool :=
  match x, y with
  | S754_nan, S754_nan => true
  | S754_zero a, S754_zero b => Bool.eqb a b
  | S754_infinity a, S754_infinity b => Bool.eqb a b
  | S754_finite a m e, S754_finite b m' e' =>
      Bool.eqb a b && (m =? m')%positive && (e =? e')
  | _, _ => false
  end.

(** The exact value of the positive finite number [m * 2^e]. *)
Definition exact (m : positive) (e : Z) : Q :=
  match e with
  | Zneg p => Z.pos m # (2 ^ p)
  | _ => inject_Z (Z.pos m * 2 ^ e)
  end.

Definition pow10 (n : Z) : Q :=
  match n with
  | Zneg p => 1 # (10 ^ p)
  | _ => inject_Z (10 ^ n)
  end.

Fixpoint magnitude_up (fuel : nat) (q : Q) (n : Z) : Z :=
  match fuel with
  | O => n
  | S f => if Qle_bool (pow10 n) q then magnitude_up f q (n + 1) else n
  end.

Fixpoint magnitude_down (fuel : nat) (q : Q) (n : Z) : Z :=
  match fuel with
  | O => n
  | S f => if Qle_bool (pow10 (n - 1)) q then n else magnitude_down f q (n - 1)
  end.

(** The [n] with [10^(n-1) <= q < 10^n]; binary64 values lie between
    [10^-324] and [10^309]. *)
Definition magnitude (q : Q) : Z :=
  if Qle_bool 1 q then magnitude_up 400 q 1 else magnitude_down 400 q 0.

(** The two [k]-digit decimals around [q]: which of them to print.  The
    upper one may roll over to the next power of ten. *)
Definition candidates (q : Q) (n0 k : Z) : (Z * Z) * (Z * Z) :=
  let lo := Qfloor (q * pow10 (k - n0))%Q in
  let hi := lo + 1 in
  ((lo, n0), if hi =? 10 ^ k then (10 ^ (k - 1), n0 + 1) else (hi, n0)).

Definition closest (q : Q) (k : Z) (lo hi : Z * Z) : Z * Z :=
  let dist (c : Z * Z) := Qabs (q - inject_Z (fst c) * pow10 (snd c - k))%Q in
  match (dist lo ?= dist hi)%Q with
  | Lt => lo
  | Gt => hi
  | Eq => if Z.even (fst lo) then lo else hi
  end.

(** The digits [s], the decimal exponent [n] and the digit count [k] of
    step 5 of Number::toString: the least [k] for which some [k]-digit
    decimal [s * 10^(n-k)] converts back to [x], taking the one closest to
    [x] when both neighbours do.  Seventeen digits always suffice. *)
Fixpoint shortest (more : nat) (x : number) (q : Q) (n0 k : Z) : Z * Z * Z :=
  let '(lo, hi) := candidates q n0 k in
  let back (c : Z * Z) := same (of_decimal false (fst c) (snd c - k)) x in
  match more with
  | O => (closest q k lo hi, k)
  | S f =>
      match back lo, back hi with
      | true, true => (closest q k lo hi, k)
      | true, false => (lo, k)
      | false, true => (hi, k)
      | false, false => shortest f x q n0 (k + 1)
      end
  end.

Definition decimal (z : Z) : string :=
  NilZero.string_of_uint (N.to_uint (Z.to_N z)).

Fixpoint zeros (n : nat) : string :=
  match n with
  | O => EmptyString
  | S n' => String "0" (zeros n')
  end.

(** Steps 6 to 10 of Number::toString. *)
Definition layout (s n k : Z) : string :=
  let ds := decimal s in
  if (k <=? n) && (n <=? 21) then
    ds ++ zeros (Z.to_nat (n - k))
  else if (0 <? n) && (n <=? 21) then
    substring 0 (Z.to_nat n) ds ++ "." ++ substring (Z.to_nat n) (Z.to_nat (k - n)) ds
  else if (-6 <? n) && (n <=? 0) then
    "0." ++ zeros (Z.to_nat (- n)) ++ ds
  else
    let e := n - 1 in
    let tail := "e" ++ (if e <? 0 then "-" else "+") ++ decimal (Z.abs e) in
    if k =? 1 then ds ++ tail
    else substring 0 1 ds ++ "." ++ substring 1 (Z.to_nat (k - 1)) ds ++ tail.

Definition NumberToString (x : number) : string :=
  match x with
  | S754_nan => "NaN"
  | S754_zero _ => "0"
  | S754_infinity neg => if neg then "-Infinity" else "Infinity"
  | S754_finite neg m e =>
      let q := exact m e in
      let '(s, n, k) := shortest 16 (S754_finite false m e) q (magnitude q) 1 in
      (if neg then "-" else "") ++ layout s n k
  end.

End JsNumber.

(** ** JavaScript values and coercions *)

Module JsValue.
Import JsNumber.

(** The values a cell of an auto-typed table or a field read can hold.  A
    Date is carried with its time value and its [toString] text. *)
Inductive value :=
| VUndefined
| VNull
| VBool (b : bool)
| VNum (x : number)
| VStr (s : string)
| VDate (time : number) (text : string).

(** A property read: [None] is a missing property. *)
Definition read (field : option string) : value :=
  match field with
  | Some s => VStr s
  | None => VUndefined
  end.

(** ToNumber, as applied by unary [+] and by [Number(v)]. *)
Definition ToNumber (v : value) : number :=
  match v with
  | VUndefined => NaN
  | VNull => zero
  | VBool b => if b then of_Z 1 else zero
  | VNum x => x
  | VStr s => StringToNumber s
  | VDate t _ => t
  end.

(** ToPrimitive without a hint: a Date becomes its text. *)
Definition ToPrimitive (v : value) : value :=
  match v with
  | VDate _ text => VStr text
  | _ => v
  end.

Definition ToString (v : value) : string :=
  match v with
  | VUndefined => "undefined"
  | VNull => "null"
  | VBool b => if b then "true" else "false"
  | VNum x => NumberToString x
  | VStr s => s
  | VDate _ text => text
  end.

(** The binary [+] operator. *)
Definition plus (a b : value) : value :=
  match ToPrimitive a, ToPrimitive b with
  | VStr s, pb => VStr (s ++ ToString pb)
  | pa, VStr s => VStr (ToString pa ++ s)
  | pa, pb => VNum (add (ToNumber pa) (ToNumber pb))
  end.

(** SameValueZero, the key equality of Map; Dates are distinct objects. *)
Definition SameValueZero (a b : value) : bool :=
  match a, b with
  | VUndefined, VUndefined | VNull, VNull => true
  | VBool x, VBool y => Bool.eqb x y
  | VNum x, VNum y => isNaN x && isNaN y || SFeqb x y
  | VStr x, VStr y => String.eqb x y
  | _, _ => false
  end.

End JsValue.

(** ** Exceptions and rejected promises *)

Inductive error :=
| TypeError        (* a property read or a method call on undefined or null *)
| FetchError       (* a rejected fetch *)
| DuplicateKey     (* d3.index on two rows with one key *)
| RangeError       (* mapLimit with a limit below 1 *)
| S3Error.         (* a rejected S3 send *)

Inductive outcome (A : Type) :=
| Ok (a : A)
| Throw (e : error).
Arguments Ok {A} a.
Arguments Throw {A} e.

#[global] Instance error_eq_dec : EqDecision error.
Proof. solve_decision. Defined.

#[global] Instance outcome_eq_dec {A} `{EqDecision A} : EqDecision (outcome A).
Proof. solve_decision. Defined.

#[global] Instance outcome_ret : MRet outcome := @Ok.
#[global] Instance outcome_bind : MBind outcome := λ A B f m,
  match m with
  | Ok a => f a
  | Throw e => Throw e
  end.

(** [xs.map(f)] / [xs.filter(f)] with a callback that may throw: the first
    exception ends the traversal. *)
Fixpoint mapM {A B} (f : A → outcome B) (xs : list A) : outcome (list B) :=
  match xs with
  | [] => Ok []
  | x :: xs' => y ← f x; ys ← mapM f xs'; Ok (y :: ys)
  end.

Fixpoint filterM {A} (f : A → outcome bool) (xs : list A) : outcome (list A) :=
  match xs with
  | [] => Ok []
  | x :: xs' => b ← f x; ys ← filterM f xs'; Ok (if b : bool then x :: ys else ys)
  end.

(** ** d3-array and the built-in Map *)

Module D3.
Import JsNumber JsValue.
Local Open Scope list_scope.

(** [sum(values, valueof)]: adds the coerced values that are truthy, so
    NaN and zeros are skipped. *)
Definition sum {A} (values : list A) (valueof : A → number) : number :=
  fold_left (λ acc d, let value := valueof d in
                      if truthy value then add acc value else acc)
            values zero.

(** Appends [v] to the group of [k], or opens a new group at the end: the
    insertion order of a Map. *)
Fixpoint group_insert {K A} (eqb : K → K → bool) (k : K) (v : A)
    (groups : list (K * list A)) : list (K * list A) :=
  match groups with
  | [] => [(k, [v])]
  | (k', vs) :: gs =>
      if eqb k' k then (k', vs ++ [v]) :: gs
      else (k', vs) :: group_insert eqb k v gs
  end.

Definition groups {K A} (eqb : K → K → bool) (key : A → K) (values : list A)
    : list (K * list A) :=
  fold_left (λ gs v, group_insert eqb (key v) v gs) values [].

(** [rollups(values, reduce, key)]: one [[key, reduce(group)]] pair per
    distinct key, in order of first appearance. *)
Definition rollups {K A B} (eqb : K → K → bool) (values : list A)
    (reduce : list A → outcome B) (key : A → K) : outcome (list (K * B)) :=
  mapM (λ g : K * list A, r ← reduce (snd g); Ok (fst g, r))
       (groups eqb key values).

(** [index(values, key)]: the Map from key to the one row with that key;
    throws on a key shared by two rows. *)
Definition index {A} (values : list A) (key : A → value) : outcome (list (value * A)) :=
  mapM (λ g : value * list A,
          match snd g with
             | [row] => Ok (fst g, row)
             | _ => Throw DuplicateKey
             end)
       (groups SameValueZero key values).

(** [map.get(k)]; [map.has(k)] is whether it is [Some]. *)
Fixpoint get {A} (m : list (value * A)) (k : value) : option A :=
  match m with
  | [] => None
  | (k', a) :: m' => if SameValueZero k' k then Some a else get m' k
  end.

Definition has {A} (m : list (value * A)) (k : value) : bool :=
  match get m k with Some _ => true | None => false end.

(** [new Map(pairs)]: a repeated key keeps its first position and takes
    the last value.  The keys that reach it are strings or [undefined]
    ([None]), on which SameValueZero is equality. *)
Fixpoint map_set {V} (m : list (option string * V)) (k : option string) (v : V)
    : list (option string * V) :=
  match m with
  | [] => [(k, v)]
  | (k', v') :: m' =>
      if bool_decide (k' = k) then (k', v) :: m' else (k', v') :: map_set m' k v
  end.

Definition new_Map {V} (pairs : list (option string * V)) : list (option string * V) :=
  fold_left (λ m kv, map_set m (fst kv) (snd kv)) pairs [].

End D3.

(** ** async.mapLimit *)

Module Async.
Local Open Scope nat_scope.

(** What the returned promise settles with: the results in the order of
    the collection, or the error of a failed call.  (Which failed call
    reports first depends on timing; the first in collection order stands
    for it.) *)
Definition mapLimit {A B} (coll : list A) (limit : nat) (iteratee : A → outcome B)
    : outcome (list B) :=
  match limit with
  | O => Throw RangeError
  | S _ => mapM iteratee coll
  end.

(** The pool behind it (eachOfLimit): the elements not yet taken from the
    iterator, the iteratee calls in flight, and the [done] flag. *)
Record pool (A : Type) := Pool {
  rest : list A;
  in_flight : list A;
  done : bool;
}.
Arguments Pool {A}.
Arguments rest {A}.
Arguments in_flight {A}.
Arguments done {A}.

(** [replenish()], entered with [done] false: while fewer than [limit]
    calls are running, take the next element and call the iteratee on it;
    an exhausted iterator sets [done]. *)
Fixpoint replenish {A} (limit : nat) (running : list A) (todo : list A) : pool A :=
  match todo with
  | [] => Pool [] running (length running <? limit)
  | elem :: todo' =>
      if length running <? limit
      then replenish limit (running ++ [elem])%list todo'
      else Pool todo running false
  end.

(** [iterateeCallback(err)] of the [i]-th call in flight: the call leaves
    the pool; an error sets [done]; otherwise the pool is replenished
    unless it is done. *)
Definition settle {A} (limit : nat) (i : nat) (err : bool) (p : pool A) : pool A :=
  match in_flight p !! i with
  | None => p
  | Some _ =>
      let running := delete i (in_flight p) in
      if err || done p then Pool (rest p) running true
      else replenish limit running (rest p)
  end.

Definition start {A} (limit : nat) (coll : list A) : pool A :=
  replenish limit [] coll.

(** The pool after a sequence of completions. *)
Definition run {A} (limit : nat) (events : list (nat * bool)) (p : pool A) : pool A :=
  fold_left (λ p ev, settle limit (fst ev) (snd ev) p) events p.

End Async.

(** ** src/main.js *)

(** A row of the previously published overview as [csvParse(_, autoType)]
    returns it; a column the table lacks reads as [VUndefined]. *)
Module Prior.
Record row := {
  department : JsValue.value;
  number : JsValue.value;
  capacity : JsValue.value;
}.
End Prior.

(** The object returned by the reducer of [rollups]. *)
Module Summary.
Record t := {
  department : string;
  number : JsNumber.number;
  title : option string;
  capacity : JsNumber.number;
  available : JsNumber.number;
  percent_available : JsNumber.number;
  waitlist : JsNumber.number;
  undergrad : bool;
  studyAbroad : bool;
}.
End Summary.

(** A row of the stub table. *)
Module Stub.
Record row := {
  Course : option string;
  Time : option string;
  Section_ : option string;
  Mode : option string;
  Number : option string;
  Status : option string;
  OpenSeats : option string;
  WaitList : JsNumber.number;
}.
End Stub.

Module Main.
Import JsString JsValue.
Local Open Scope list_scope.

Definition bucket : string := "stash.michigandaily.com".
Definition prefix : string := "course-tracker/winter-2023".
Definition term : string := "w_23_2420".
Definition NUM_OPERATIONS : nat := 25.

(** *** The world of one run *)

(** A fetch rejects, or resolves with a response that is [ok] or not. *)
Inductive fetched (A : Type) :=
| Rejected
| Response (ok : bool) (body : A).
Arguments Rejected {A}.
Arguments Response {A} ok body.

(** A row of cache-courses.csv as [csvParse] returns it: a string for each
    column of the header, and [undefined] ([None]) for a column that the
    header lacks. *)
Record CourseRow := {
  course : option string;
  suffix : option string;
  title : option string;
}.

(** The value of the courses Map: [{ suffix, title }]. *)
Record CourseInfo := { info_suffix : option string; info_title : option string }.

(** A section record: an object whose keys come from the page. *)
Abbreviation SectionRecord := (gmap string string).

Inductive Body :=
| OverviewCsv (rows : list Summary.t)      (* csvFormat(primary) *)
| StubCsv (rows : list Stub.row).          (* csvFormat(stub) *)

Record PutObjectCommand := {
  Bucket : string;
  Key : string;
  body : Body;
  ContentType : string;
  CacheControl : option string;
}.

(** - [catalog]: the response for cache-courses.csv, parsed;
    - [detail content]: the response of cg_detail.aspx for that content
      parameter (and [termArray = term]); its body is the list of
      [.row.clsschedulerow] elements, each the list of the [textContent]
      of its [.row .col-md-1] elements;
    - [prior]: the response for overview.csv, parsed with autoType;
    - [clock name i]: [dateToNearestHour()] when row [i] of course [name]
      is read; [publish_clock]: the same when the stub key is built;
    - [s3_accepts key]: whether the send of the object at [key] resolves. *)
Record World := {
  catalog : fetched (list CourseRow);
  detail : string → fetched (list (list string));
  prior : fetched (list Prior.row);
  clock : option string → nat → string;
  publish_clock : string;
  s3_accepts : string → bool;
}.

(** *** getSections *)

(** [section[key] = value] on an ordinary object: assigning a string to
    [__proto__] is ignored. *)
Definition set_property (section : SectionRecord) (key value : string) : SectionRecord :=
  if String.eqb key "__proto__" then section else <[key := value]> section.

(** The [forEach] callback: [let [key, value] = text.trim().split(":")],
    then [value.trim()], which throws on an undefined [value]. *)
Definition extractColumn (section : SectionRecord) (text : string) : outcome SectionRecord :=
  match split ":" (trim text) with
  | key :: value :: _ => Ok (set_property section key (trim value))
  | _ => Throw TypeError
  end.

Fixpoint extractColumns (section : SectionRecord) (columns : list string)
    : outcome SectionRecord :=
  match columns with
  | [] => Ok section
  | text :: columns' => section' ← extractColumn section text; extractColumns section' columns'
  end.

(** [{ key: v }]: a property that holds [undefined] reads as a missing
    one. *)
Definition init_property (section : SectionRecord) (key : string) (v : option string)
    : SectionRecord :=
  match v with
  | Some text => <[key := text]> section
  | None => section
  end.

(** The [map] callback of one row. *)
Definition extractRow (name : option string) (time : string) (title : option string)
    (row : list string) : outcome SectionRecord :=
  extractColumns
    (init_property (<["Time" := time]> (init_property ∅ "Course" name)) "title" title) row.

Fixpoint extractRows (name title : option string) (now : nat → string) (i : nat)
    (rows : list (list string)) : outcome (list SectionRecord) :=
  match rows with
  | [] => Ok []
  | row :: rows' =>
      d ← extractRow name (now i) title row;
      ds ← extractRows name title now (S i) rows';
      Ok (d :: ds)
  end.

Definition getCourseSections (w : World) (content_prefix : string)
    (entry : option string * CourseInfo) : outcome (list SectionRecord) :=
  let '(name, info) := entry in
  match detail w (content_prefix ++ ToString (read name)
                  ++ ToString (read (info_suffix info)))%string with
  | Rejected => Throw FetchError
  | Response false _ => Ok []
  | Response true rows => extractRows name (info_title info) (clock w name) 0 rows
  end.

(** The pool that [mapLimit] runs for [getSections] over the entries of
    the courses Map, after the completions [events]; every call in flight
    has issued one fetch. *)
Definition fetchPool (entries : list (option string * CourseInfo))
    (events : list (nat * bool)) : Async.pool (option string * CourseInfo) :=
  Async.run NUM_OPERATIONS events (Async.start NUM_OPERATIONS entries).

(** [courses] is [None] for the [null] of an unavailable catalog, on which
    [courses.entries()] throws. *)
Definition getSections (w : World) (courses : option (list (option string * CourseInfo)))
    (term : string) : outcome (list SectionRecord) :=
  let content_prefix := List.last (split "_" term) EmptyString in
  match courses with
  | None => Throw TypeError
  | Some entries =>
      sections ← Async.mapLimit entries NUM_OPERATIONS (getCourseSections w content_prefix);
      Ok (concat sections)
  end.

Definition getCourses (w : World)
    : outcome (option (list (option string * CourseInfo))) :=
  match catalog w with
  | Rejected => Throw FetchError
  | Response true cache =>
      Ok (Some (D3.new_Map
                  (map (λ r, (course r, {| info_suffix := suffix r; info_title := title r |}))
                       cache)))
  | Response false _ => Ok None
  end.

Definition getOverview (w : World) : outcome (option (list (value * Prior.row))) :=
  match prior w with
  | Rejected => Throw FetchError
  | Response true overview =>
      table ← D3.index overview (λ d, plus (Prior.department d) (Prior.number d));
      Ok (Some table)
  | Response false _ => Ok None
  end.

(** *** handler *)

(** The filter callback; [d.Section.includes] throws when the record has
    no [Section]. *)
Definition countable (d : SectionRecord) : outcome bool :=
  match d !! "Section" with
  | None => Throw TypeError
  | Some label =>
      Ok (includes label "LEC" || includes label "SEM"
          || includes label "REC" || includes label "IND")
  end.

(** [+d["Open Seats"]] *)
Definition openSeats (d : SectionRecord) : JsNumber.number :=
  ToNumber (read (d !! "Open Seats")).

(** [d["Wait List"] === "-" ? 0 : +d["Wait List"]] *)
Definition waitList (d : SectionRecord) : JsNumber.number :=
  if decide (d !! "Wait List" = Some "-") then JsNumber.zero
  else ToNumber (read (d !! "Wait List")).

(** The capacity rule of the reducer; [overview.has(course)] holds exactly
    when [get] finds a row. *)
Definition capacityOf (overview : option (list (value * Prior.row))) (course : string)
    (available : JsNumber.number) : JsNumber.number :=
  match overview with
  | None => available
  | Some table =>
      match D3.get table (VStr course) with
      | None => available
      | Some hint =>
          let potential := ToNumber (Prior.capacity hint) in
          if JsNumber.gt potential available then potential else available
      end
  end.

(** The reducer of [rollups]; [v[0].Course] throws on an empty group. *)
Definition summarize (overview : option (list (value * Prior.row)))
    (v : list SectionRecord) : outcome Summary.t :=
  match v with
  | [] => Throw TypeError
  | d0 :: _ =>
      match d0 !! "Course" with
      | None => Throw TypeError
      | Some course =>
          let number := ToNumber (VStr (slice course (-3) None)) in
          let available := D3.sum v openSeats in
          let capacity := capacityOf overview course available in
          Ok {| Summary.department := slice course 0 (Some (-3)%Z);
                Summary.number := number;
                Summary.title := d0 !! "title";
                Summary.capacity := capacity;
                Summary.available := available;
                Summary.percent_available := JsNumber.div available capacity;
                Summary.waitlist := D3.sum v waitList;
                Summary.undergrad := JsNumber.lt number (JsNumber.of_Z 500);
                Summary.studyAbroad := includes course "STDABRD" |}
      end
  end.

Definition key_eqb (a b : option string) : bool := bool_decide (a = b).

(** [rollups(sections.filter(...), reducer, d => d.Course)], before the
    final [.map(d => d[1])]. *)
Definition aggregate (overview : option (list (value * Prior.row)))
    (sections : list SectionRecord) : outcome (list (option string * Summary.t)) :=
  primary ← filterM countable sections;
  D3.rollups key_eqb primary (summarize overview) (λ d, d !! "Course").

Definition stubRow (d : SectionRecord) : Stub.row :=
  {| Stub.Course := d !! "Course";
     Stub.Time := d !! "Time";
     Stub.Section_ := d !! "Section";
     Stub.Mode := d !! "Instruction Mode";
     Stub.Number := d !! "Class No";
     Stub.Status := d !! "Enroll Stat";
     Stub.OpenSeats := d !! "Open Seats";
     Stub.WaitList := waitList d |}.

Definition overviewCommand (primary : list Summary.t) : PutObjectCommand :=
  {| Bucket := bucket;
     Key := prefix ++ "/overview.csv";
     body := OverviewCsv primary;
     ContentType := "text/csv";
     CacheControl := Some "s-maxage=3500" |}.

Definition stubCommand (now : string) (stub : list Stub.row) : PutObjectCommand :=
  {| Bucket := bucket;
     Key := prefix ++ "/stubs/stub-" ++ now ++ ".csv";
     body := StubCsv stub;
     ContentType := "text/csv";
     CacheControl := None |}.

(** [client.send(command)] *)
Definition send (w : World) (command : PutObjectCommand) : outcome () :=
  if s3_accepts w (Key command) then Ok () else Throw S3Error.

(** Everything up to the first publish. *)
Definition collect (w : World)
    : outcome (list SectionRecord * list (option string * Summary.t)) :=
  courses ← getCourses w;
  sections ← getSections w courses term;
  overview ← getOverview w;
  primary ← aggregate overview sections;
  Ok (sections, primary).

(** The run: the S3 commands issued, in order, and how the run ends. *)
Definition handler (w : World) : list PutObjectCommand * outcome () :=
  match collect w with
  | Throw e => ([], Throw e)
  | Ok (sections, primary) =>
      let put_overview := overviewCommand (map snd primary) in
      match send w put_overview with
      | Throw e => ([put_overview], Throw e)
      | Ok _ =>
          let put_stub := stubCommand (publish_clock w) (map stubRow sections) in
          ([put_overview; put_stub], send w put_stub)
      end
  end.

End Main.

(** ** Vocabulary of the properties *)

Module Spec.
Import JsString JsValue Main.

(** The countable sections of a course among the fetched records: the group
    that [rollups] hands to the reducer for that course. *)
Definition countableSections (course : string) (sections : list SectionRecord)
    : list SectionRecord :=
  filter (λ d, d !! "Course" = Some course ∧ countable d = Ok true) sections.

(** The capacity hint of a course: the numeric capacity of the row that
    the hint table holds under the course id, if the table is available and
    has such a row. *)
Definition hint (overview : option (list (value * Prior.row))) (course : string)
    : option JsNumber.number :=
  match overview with
  | Some table => (λ row, ToNumber (Prior.capacity row)) <$> D3.get table (VStr course)
  | None => None
  end.

(** The waitlist quantity published for a Wait List field: 0 for the
    sentinel, the numeric coercion of any other value, NaN for a missing
    field. *)
Definition normalized (field : option string) : JsNumber.number :=
  match field with
  | Some text => if String.eqb text "-" then JsNumber.zero else JsNumber.StringToNumber text
  | None => JsNumber.NaN
  end.

(** Every character of [text] is a decimal digit. *)
Fixpoint all_digits (text : string) : bool :=
  match text with
  | EmptyString => true
  | String c rest =>
      (48 <=? Z.of_N (N_of_ascii c))%Z && (Z.of_N (N_of_ascii c) <=? 57)%Z
      && all_digits rest
  end.

(** The key under which [index] files a row of the prior overview. *)
Definition hintKey (row : Prior.row) : value :=
  plus (Prior.department row) (Prior.number row).



(** The label of a column: its trimmed text up to the first colon. *)
Definition labelOf (text : string) : string :=
  hd EmptyString (split ":" (trim text)).

(** The entries of the courses Map built from the rows of the catalog. *)
Definition entriesOf (cache : list CourseRow) : list (option string * CourseInfo) :=
  D3.new_Map
    (map (λ r, (course r, {| info_suffix := suffix r; info_title := title r |})) cache).

(** The content parameter of the detail request of a course. *)
Definition contentOf (name : option string) (info : CourseInfo) : string :=
  (List.last (split "_" term) EmptyString ++ ToString (read name)
   ++ ToString (read (info_suffix info)))%string.

(** The world whose catalog lacks the course [name], all else equal. *)
Definition without (name : option string) (w : World) : World :=
  {| catalog := match catalog w with
                | Response ok cache => Response ok (filter (λ r, course r ≠ name) cache)
                | Rejected => Rejected
                end;
     detail := detail w;
     prior := prior w;
     clock := clock w;
     publish_clock := publish_clock w;
     s3_accepts := s3_accepts w |}.

(** [s] contains [marker] as a substring. *)
Definition contains (s marker : string) : Prop :=
  ∃ before after, s = (before ++ marker ++ after)%string.

Local Open Scope list_scope.
Local Open Scope nat_scope.

(** The members of the first group that the key [k0] selects: the group that
    [group_insert] extends for that key. *)
Fixpoint groupOf {K A} (eqb : K → K → bool) (k0 : K) (gs : list (K * list A)) : list A :=
  match gs with
  | [] => []
  | (k, vs) :: gs' => if eqb k k0 then vs else groupOf eqb k0 gs'
  end.

(** The schedule rows of the page of a course: those of the response when
    it is [ok], none otherwise. *)
Definition pageOf (w : World) (entry : option string * CourseInfo) : list (list string) :=
  match detail w (contentOf (fst entry) (snd entry)) with
  | Response true page => page
  | _ => []
  end.

(** A schedule row with the entry of its course and its position on the
    page. *)
Record ScheduleRow := {
  of_entry : option string * CourseInfo;
  position : nat;
  columns : list string;
}.

Fixpoint numbered (entry : option string * CourseInfo) (i : nat) (page : list (list string))
    : list ScheduleRow :=
  match page with
  | [] => []
  | row :: page' =>
      {| of_entry := entry; position := i; columns := row |} :: numbered entry (S i) page'
  end.

(** All schedule rows that a run reads: page by page in the order of the
    courses Map, each page from top to bottom. *)
Definition scheduleRows (w : World) (cache : list CourseRow) : list ScheduleRow :=
  concat (map (λ entry, numbered entry 0 (pageOf w entry)) (entriesOf cache)).

(** The record that the extractor makes of a schedule row. *)
Definition recordOf (w : World) (r : ScheduleRow) : outcome SectionRecord :=
  extractRow (fst (of_entry r)) (clock w (fst (of_entry r)) (position r))
             (info_title (snd (of_entry r))) (columns r).

(** The distinct keys of a list, each at its first mention. *)
Fixpoint firstMentions (keys : list (option string)) : list (option string) :=
  match keys with
  | [] => []
  | k :: keys' => k :: filter (λ k', k' ≠ k) (firstMentions keys')
  end.

(** The integer that three decimal digits denote. *)
Definition digitValue (c : ascii) : Z := (Z.of_N (N_of_ascii c) - 48)%Z.

Definition courseNumber (a b c : ascii) : Z :=
  (100 * digitValue a + 10 * digitValue b + digitValue c)%Z.

(** The check that three digits parse to the integer they denote and
    compare with 500 as that integer does. *)
Definition classified (a b c : ascii) : bool :=
  let number := JsNumber.StringToNumber (String a (String b (String c EmptyString))) in
  JsNumber.same number (JsNumber.of_Z (courseNumber a b c))
  && Bool.eqb (JsNumber.lt number (JsNumber.of_Z 500)) (courseNumber a b c <? 500)%Z.

(** The key of the catalog that [getCourses] reads. *)
Definition catalogKey : string := (prefix ++ "/cache-courses.csv")%string.

(** What the pool has taken from the collection is a prefix of it, and what
    is in flight is part of that prefix, in order. *)
Definition taken_in_order {A} (entries : list A) (p : Async.pool A) : Prop :=
  ∃ started, entries = started ++ Async.rest p ∧ Async.in_flight p `sublist_of` started.

(** While the iterator is not exhausted and no call has failed, the pool is
    full. *)
Definition saturated {A} (limit : nat) (p : Async.pool A) : Prop :=
  length (Async.in_flight p) ≤ limit ∧
  (Async.done p = false → Async.rest p ≠ [] → length (Async.in_flight p) = limit).

(** The non-negative integer that a string of decimal digits denotes,
    continuing from [acc]. *)
Fixpoint decimalValue (acc : Z) (text : string) : Z :=
  match text with
  | EmptyString => acc
  | String c rest => decimalValue (10 * acc + digitValue c)%Z rest
  end.

(** A row of the stub table carries the fields of a record: the eight
    columns of the stub are the fields of the record under their labels,
    the Wait List normalized. *)
Definition mirrors (d : SectionRecord) (r : Stub.row) : Prop :=
  Stub.Course r = d !! "Course" ∧
  Stub.Time r = d !! "Time" ∧
  Stub.Section_ r = d !! "Section" ∧
  Stub.Mode r = d !! "Instruction Mode" ∧
  Stub.Number r = d !! "Class No" ∧
  Stub.Status r = d !! "Enroll Stat" ∧
  Stub.OpenSeats r = d !! "Open Seats" ∧
  Stub.WaitList r = normalized (d !! "Wait List").

(** The run publishes two objects and ends well: the overview with the
    rows [primary], then a stub table with one row per record of
    [sections], in order. *)
Definition published (w : World) (primary : list Summary.t)
    (sections : list SectionRecord) : Prop :=
  ∃ put_overview put_stub stub,
    handler w = ([put_overview; put_stub], Ok ()) ∧
    body put_overview = OverviewCsv primary ∧
    body put_stub = StubCsv stub ∧
    Forall2 mirrors sections stub.

(** Every row of every page that responds [ok] has a colon in each of its
    columns and a column labelled Section. *)
Definition labelledPages (w : World) : Prop :=
  ∀ content page row,
    detail w content = Response true page → row ∈ page →
    (∀ text, text ∈ row → includes text ":" = true) ∧
    (∃ text, text ∈ row ∧ labelOf text = "Section").

End Spec.

(** ** Sample runs *)

Module Examples.
Import JsValue Main.

Definition world (catalog : fetched (list CourseRow))
    (detail : string → fetched (list (list string)))
    (prior : fetched (list Prior.row)) : World :=
  {| catalog := catalog; detail := detail; prior := prior;
     clock := λ _ _, "2023-01-09T15:00:00.000Z";
     publish_clock := "2023-01-09T15:00:00.000Z";
     s3_accepts := λ _, true |}.

Definition eecs485 : CourseRow :=
  {| course := Some "EECS485"; suffix := Some "001"; title := Some "Web Systems" |}.

(** The page of the scenario of the specification: a lecture, a
    discussion and an independent-study section. *)
Definition eecs485_page : list (list string) :=
  [ ["Section: 001 (LEC)"; "Enroll Stat: Open"; "Open Seats: 5"; "Wait List: -"];
    ["Section: 201 (DIS)"; "Enroll Stat: Open"; "Open Seats: 10"; "Wait List: 3"];
    ["Section: 401 (IND)"; "Enroll Stat: Open"; "Open Seats: 2"; "Wait List: 4"] ].

Definition only (content : string) (page : list (list string))
    : string → fetched (list (list string)) :=
  λ c, if String.eqb c content then Response true page else Response false [].

Definition plain_world : World :=
  world (Response true [eecs485]) (only "2420EECS485001" eecs485_page) (Response false []).

Definition no_catalog_world : World :=
  world (Response false []) (only "2420EECS485001" eecs485_page) (Response false []).

(** The records that a run fetches. *)
Definition fetched_in (w : World) : list SectionRecord :=
  match getCourses w ≫= (λ courses, getSections w courses term) with
  | Ok sections => sections
  | Throw _ => []
  end.

Definition plain_sections : list SectionRecord := fetched_in plain_world.

(** Seven open seats in the two countable sections, no hint. *)
Definition plain_summary : Summary.t :=
  {| Summary.department := "EECS";
     Summary.number := JsNumber.of_Z 485;
     Summary.title := Some "Web Systems";
     Summary.capacity := JsNumber.of_Z 7;
     Summary.available := JsNumber.of_Z 7;
     Summary.percent_available := JsNumber.of_Z 1;
     Summary.waitlist := JsNumber.of_Z 4;
     Summary.undergrad := true;
     Summary.studyAbroad := false |}.

Definition plain_rows : list (option string * Summary.t) :=
  [(Some "EECS485", plain_summary)].

(** A page whose two lectures report infinite open seats of opposite
    signs. *)
Definition infinite_page : list (list string) :=
  [ ["Section: 001 (LEC)"; "Open Seats: Infinity"; "Wait List: -"];
    ["Section: 002 (LEC)"; "Open Seats: -Infinity"; "Wait List: -"] ].

Definition infinite_world : World :=
  world (Response true [eecs485]) (only "2420EECS485001" infinite_page) (Response false []).

Definition infinite_summary : Summary.t :=
  {| Summary.department := "EECS";
     Summary.number := JsNumber.of_Z 485;
     Summary.title := Some "Web Systems";
     Summary.capacity := JsNumber.NaN;
     Summary.available := JsNumber.NaN;
     Summary.percent_available := JsNumber.NaN;
     Summary.waitlist := JsNumber.zero;
     Summary.undergrad := true;
     Summary.studyAbroad := false |}.

(** A course whose only lecture has no open seat, without a hint. *)
Definition full_world : World :=
  world (Response true [eecs485])
        (only "2420EECS485001" [["Section: 001 (LEC)"; "Open Seats: 0"; "Wait List: 12"]])
        (Response false []).

Definition full_summary : Summary.t :=
  {| Summary.department := "EECS";
     Summary.number := JsNumber.of_Z 485;
     Summary.title := Some "Web Systems";
     Summary.capacity := JsNumber.zero;
     Summary.available := JsNumber.zero;
     Summary.percent_available := JsNumber.NaN;
     Summary.waitlist := JsNumber.of_Z 12;
     Summary.undergrad := true;
     Summary.studyAbroad := false |}.

Definition eecs485_prior (capacity : value) : Prior.row :=
  {| Prior.department := VStr "EECS";
     Prior.number := VNum (JsNumber.of_Z 485);
     Prior.capacity := capacity |}.

(** A course whose lecture reports a negative count of open seats, with a
    prior capacity of 0. *)
Definition overbooked_world : World :=
  world (Response true [eecs485])
        (only "2420EECS485001" [["Section: 001 (LEC)"; "Open Seats: -5"; "Wait List: 12"]])
        (Response true [eecs485_prior (VNum JsNumber.zero)]).

Definition overbooked_summary : Summary.t :=
  {| Summary.department := "EECS";
     Summary.number := JsNumber.of_Z 485;
     Summary.title := Some "Web Systems";
     Summary.capacity := JsNumber.zero;
     Summary.available := JsNumber.of_Z (-5);
     Summary.percent_available := S754_infinity true;
     Summary.waitlist := JsNumber.of_Z 12;
     Summary.undergrad := true;
     Summary.studyAbroad := false |}.

(** A course with a lecture whose row has no Wait List label and a seminar
    whose Wait List reads -3. *)
Definition waitlist_world : World :=
  world (Response true [eecs485])
        (only "2420EECS485001"
              [ ["Section: 001 (LEC)"; "Open Seats: 5"];
                ["Section: 002 (SEM)"; "Open Seats: 1"; "Wait List: -3"] ])
        (Response false []).

Definition waitlist_summary : Summary.t :=
  {| Summary.department := "EECS";
     Summary.number := JsNumber.of_Z 485;
     Summary.title := Some "Web Systems";
     Summary.capacity := JsNumber.of_Z 6;
     Summary.available := JsNumber.of_Z 6;
     Summary.percent_available := JsNumber.of_Z 1;
     Summary.waitlist := JsNumber.of_Z (-3);
     Summary.undergrad := true;
     Summary.studyAbroad := false |}.

Definition math115 : CourseRow :=
  {| course := Some "MATH115"; suffix := Some "001"; title := Some "Calculus I" |}.

(** Two courses; the page of the second holds a discussion section only. *)
Definition discussion_world : World :=
  world (Response true [eecs485; math115])
        (λ content,
           if String.eqb content "2420EECS485001" then Response true eecs485_page
           else if String.eqb content "2420MATH115001"
                then Response true [["Section: 201 (DIS)"; "Open Seats: 9"; "Wait List: -"]]
                else Response false [])
        (Response false []).







(** A page whose lecture row has no Section column. *)
Definition sectionless_world : World :=
  world (Response true [eecs485])
        (only "2420EECS485001" [["Open Seats: 5"; "Wait List: -"]])
        (Response false []).

(** A page whose lecture row has a column without a colon. *)
Definition colonless_row : list string :=
  ["Section: 001 (LEC)"; "Closed"; "Open Seats: 0"].

Definition colonless_world : World :=
  world (Response true [eecs485]) (only "2420EECS485001" [colonless_row])
        (Response false []).

(** A page whose lecture row has neither Open Seats nor Wait List. *)
Definition sparse_world : World :=
  world (Response true [eecs485])
        (only "2420EECS485001" [["Section: 001 (LEC)"; "Room: 1670 BBB"]])
        (Response false []).

(** Two courses; the detail page of the second answers 404. *)
Definition missing_page_world : World :=
  world (Response true [eecs485; math115]) (only "2420EECS485001" eecs485_page)
        (Response false []).

(** Two courses; the fetch of the detail page of the second rejects. *)
Definition unreachable_world : World :=
  world (Response true [eecs485; math115])
        (λ content,
           if String.eqb content "2420EECS485001" then Response true eecs485_page
           else Rejected)
        (Response false []).

(** The rollup of a run. *)
Definition rows_in (w : World) : list (option string * Summary.t) :=
  match collect w with
  | Ok (_, rows) => rows
  | Throw _ => []
  end.

(** The first record that the plain run fetches: the lecture. *)
Definition plain_lecture : SectionRecord :=
  match plain_sections with
  | d :: _ => d
  | [] => ∅
  end.

(** A catalog that lists EECS485 a second time, with another suffix. *)
Definition eecs485_again : CourseRow :=
  {| course := Some "EECS485"; suffix := Some "002"; title := Some "Web Systems (second listing)" |}.

Definition repeated_catalog : list CourseRow := [eecs485; math115; eecs485_again].

Definition repeated_world : World :=
  world (Response true repeated_catalog) (only "2420EECS485002" eecs485_page)
        (Response false []).

(** A row with two Section columns. *)
Definition relabelled_row : list string :=
  ["Section: 001 (LEC)"; "Section: 002 (SEM)"; "Open Seats: 5"].

Definition record_of (row : list string) : SectionRecord :=
  match extractRow (Some "EECS485") "2023-01-09T15:00:00.000Z" (Some "Web Systems") row with
  | Ok d => d
  | Throw _ => ∅
  end.

(** The prior overview lists EECS485 twice. *)
Definition duplicated_table : list Prior.row :=
  [ eecs485_prior (VNum (JsNumber.of_Z 100)); eecs485_prior (VNum (JsNumber.of_Z 200)) ].

Definition duplicated_world : World :=
  world (Response true [eecs485]) (only "2420EECS485001" eecs485_page)
        (Response true duplicated_table).

(** The summary of the lecture that reports neither Open Seats nor Wait
    List. *)
Definition sparse_summary : Summary.t :=
  {| Summary.department := "EECS";
     Summary.number := JsNumber.of_Z 485;
     Summary.title := Some "Web Systems";
     Summary.capacity := JsNumber.zero;
     Summary.available := JsNumber.zero;
     Summary.percent_available := JsNumber.NaN;
     Summary.waitlist := JsNumber.zero;
     Summary.undergrad := true;
     Summary.studyAbroad := false |}.

Definition eecs485_entry : option string * CourseInfo :=
  (Some "EECS485", {| info_suffix := Some "001"; info_title := Some "Web Systems" |}).

(** Two courses; the detail page of the second answers 404, and the page
    of the first has a lecture row with a column labelled Course that
    names the second. *)
Definition relabelled_course_world : World :=
  world (Response true [eecs485; math115])
        (only "2420EECS485001"
              [["Section: 001 (LEC)"; "Course: MATH115"; "Open Seats: 5"; "Wait List: -"]])
        (Response false []).

Definition relabelled_course_summary : Summary.t :=
  {| Summary.department := "MATH";
     Summary.number := JsNumber.of_Z 115;
     Summary.title := Some "Web Systems";
     Summary.capacity := JsNumber.of_Z 5;
     Summary.available := JsNumber.of_Z 5;
     Summary.percent_available := JsNumber.of_Z 1;
     Summary.waitlist := JsNumber.zero;
     Summary.undergrad := true;
     Summary.studyAbroad := false |}.

(** A catalog whose header lacks the title column. *)
Definition untitled_world : World :=
  world (Response true [{| course := Some "EECS485"; suffix := Some "001"; title := None |}])
        (only "2420EECS485001" eecs485_page) (Response false []).

(** A catalog whose header lacks the course column. *)
Definition courseless_world : World :=
  world (Response true [{| course := None; suffix := Some "001"; title := Some "Web Systems" |}])
        (only "2420undefined001" eecs485_page) (Response false []).

(** The first record of the run on the catalog without course ids. *)
Definition courseless_lecture : SectionRecord :=
  match fetched_in courseless_world with
  | d :: _ => d
  | [] => ∅
  end.

End Examples.

(** * Lemmas *)

Local Open Scope list_scope.
Local Open Scope nat_scope.

Import JsString JsValue Main Spec.

(** ** The error monad and traversals *)

Lemma bind_Ok_inv {A B} (m : outcome A) (f : A → outcome B) (b : B) :
  (m ≫= f) = Ok b → ∃ a, m = Ok a ∧ f a = Ok b.
Proof. destruct m as [a|e]; simpl; [eauto | discriminate]. Qed.

Lemma bind_Ok {A B} (a : A) (f : A → outcome B) : (Ok a ≫= f) = f a.
Proof. reflexivity. Qed.

Ltac inv_bind H :=
  repeat match type of H with
  | (_ ≫= _) = Ok _ =>
      let a := fresh "a" in
      let Ha := fresh "Ha" in
      apply bind_Ok_inv in H as (a & Ha & H)
  end.

Lemma mapM_Ok_Forall2 {A B} (f : A → outcome B) (xs : list A) (ys : list B) :
  mapM f xs = Ok ys ↔ Forall2 (λ x y, f x = Ok y) xs ys.
Proof.
  revert ys. induction xs as [|x xs IH]; intros ys; simpl.
  - split; [intros [= <-]; constructor | by inversion 1].
  - split.
    + intros H. inv_bind H. injection H as <-. constructor; [done | by apply IH].
    + inversion 1 as [|? y ? ys' Hx Hxs]; subst.
      rewrite Hx. simpl. apply IH in Hxs. rewrite Hxs. done.
Qed.

Lemma mapM_total {A B} (f : A → outcome B) (xs : list A) :
  (∀ x, x ∈ xs → ∃ y, f x = Ok y) → ∃ ys, mapM f xs = Ok ys.
Proof.
  induction xs as [|x xs IH]; intros Hf; simpl; [eauto |].
  destruct (Hf x) as [y Hy]; [left |]. rewrite Hy. simpl.
  destruct IH as [ys Hys]; [intros; apply Hf; by right |].
  rewrite Hys. simpl. eauto.
Qed.

Lemma mapM_Throw {A B} (f : A → outcome B) (xs : list A) x e :
  x ∈ xs → f x = Throw e → ∃ e', mapM f xs = Throw e'.
Proof.
  induction xs as [|x0 xs IH]; intros Hin Hx; [by apply elem_of_nil in Hin |].
  simpl. apply elem_of_cons in Hin as [<- | Hin].
  - rewrite Hx. simpl. eauto.
  - destruct (f x0); simpl; [| eauto].
    destruct (IH Hin Hx) as [e' ->]. simpl. eauto.
Qed.

Lemma filterM_Ok {A} (f : A → outcome bool) (xs ys : list A) :
  filterM f xs = Ok ys →
  ys = filter (λ x, f x = Ok true) xs ∧ ∀ x, x ∈ xs → ∃ b, f x = Ok b.
Proof.
  revert ys. induction xs as [|x xs IH]; intros ys; simpl.
  - intros [= <-]. split; [done | intros x Hx; by apply elem_of_nil in Hx].
  - intros H. inv_bind H. injection H as <-.
    destruct (IH _ Ha0) as [-> Hall]. split.
    + destruct a.
      * by rewrite filter_cons_True.
      * rewrite filter_cons_False; [done | congruence].
    + intros y [-> | Hy]%elem_of_cons; eauto.
Qed.

Lemma filterM_total {A} (f : A → outcome bool) (xs : list A) :
  (∀ x, x ∈ xs → ∃ b, f x = Ok b) → ∃ ys, filterM f xs = Ok ys.
Proof.
  induction xs as [|x xs IH]; intros Hf; simpl; [eauto |].
  destruct (Hf x) as [b Hb]; [left |]. rewrite Hb. simpl.
  destruct IH as [ys Hys]; [intros; apply Hf; by right |].
  rewrite Hys. simpl. eauto.
Qed.

(** ** Grouping *)

Section Grouping.
Context {K A : Type} `{EqDecision K}.
Variable eqb : K → K → bool.
Variable key : A → K.

Lemma groups_snoc (values : list A) (x : A) :
  D3.groups eqb key (values ++ [x]) =
  D3.group_insert eqb (key x) x (D3.groups eqb key values).
Proof. unfold D3.groups. by rewrite fold_left_app. Qed.

(** Every group was opened by its first member, whose key names it. *)
Lemma group_insert_origin k (x : A) (gs : list (K * list A)) (values : list A) :
  (∀ g, g ∈ gs → ∃ v0 vs, snd g = v0 :: vs ∧ fst g = key v0 ∧ v0 ∈ values) →
  key x = k →
  ∀ g, g ∈ D3.group_insert eqb k x gs →
       ∃ v0 vs, snd g = v0 :: vs ∧ fst g = key v0 ∧ v0 ∈ values ++ [x].
Proof.
  intros Hgs <-. induction gs as [|[k' vs'] gs IH]; simpl; intros g Hg.
  - apply list_elem_of_singleton in Hg as ->. simpl.
    exists x, []. by rewrite elem_of_app, list_elem_of_singleton; auto.
  - assert (Hwiden : ∀ g', g' ∈ (k', vs') :: gs →
              ∃ v0 vs, snd g' = v0 :: vs ∧ fst g' = key v0 ∧ v0 ∈ values ++ [x]).
    { intros g' Hg'. destruct (Hgs g' Hg') as (v0 & vs & ? & ? & ?).
      exists v0, vs. rewrite elem_of_app. auto. }
    destruct (eqb k' (key x)).
    + apply elem_of_cons in Hg as [-> | Hg].
      * destruct (Hwiden (k', vs')) as (v0 & vs & Hs & Hk & Hin); [left |].
        simpl in *. subst vs'. exists v0, (vs ++ [x]). auto.
      * apply Hwiden. by right.
    + apply elem_of_cons in Hg as [-> | Hg].
      * apply Hwiden. left.
      * apply IH; [| done]. intros g' Hg'. apply Hgs. by right.
Qed.

Lemma groups_origin (values : list A) :
  ∀ g, g ∈ D3.groups eqb key values →
       ∃ v0 vs, snd g = v0 :: vs ∧ fst g = key v0 ∧ v0 ∈ values.
Proof.
  induction values as [|x values IH] using rev_ind.
  - intros g Hg. by apply elem_of_nil in Hg.
  - rewrite groups_snoc. by apply group_insert_origin.
Qed.

Hypothesis eqb_eq : ∀ a b, eqb a b = true ↔ a = b.

Lemma group_insert_keys k (x : A) (gs : list (K * list A)) :
  map fst (D3.group_insert eqb k x gs) =
  if decide (k ∈ map fst gs) then map fst gs else map fst gs ++ [k].
Proof.
  induction gs as [|[k' vs'] gs IH]; cbn [D3.group_insert map fst app].
  - rewrite decide_False; [done | apply not_elem_of_nil].
  - destruct (eqb k' k) eqn:E.
    + apply eqb_eq in E as ->. cbn [map fst]. rewrite decide_True; [done | left].
    + cbn [map fst]. rewrite IH.
      assert (k' ≠ k) by (intros ->; rewrite (proj2 (eqb_eq k k)) in E; done).
      destruct (decide (k ∈ map fst gs)) as [Hin | Hout].
      * rewrite decide_True; [done | by right].
      * rewrite decide_False; [done |].
        intros [-> | ?]%elem_of_cons; done.
Qed.

Lemma group_insert_members k (x : A) (gs : list (K * list A)) k0 vs0 :
  NoDup (map fst gs) →
  (k0, vs0) ∈ D3.group_insert eqb k x gs →
  (k0 = k ∧ ((∃ vs, (k, vs) ∈ gs ∧ vs0 = (vs ++ [x])) ∨ ((k ∉ map fst gs) ∧ vs0 = [x])))
  ∨ (k0 ≠ k ∧ (k0, vs0) ∈ gs).
Proof.
  induction gs as [|[k' vs'] gs IH]; simpl; intros Hnd Hin.
  - apply list_elem_of_singleton in Hin as [= -> ->].
    left. split; [done |]. right. split; [apply not_elem_of_nil | done].
  - apply NoDup_cons in Hnd as [Hk' Hnd].
    destruct (eqb k' k) eqn:E.
    + apply eqb_eq in E as ->.
      apply elem_of_cons in Hin as [[= -> ->] | Hin].
      * left. split; [done |]. left. exists vs'. split; [left | done].
      * right. split; [| by right].
        intros ->. apply Hk'. apply list_elem_of_In, in_map_iff.
        exists (k, vs0). split; [done | by apply list_elem_of_In].
    + assert (k' ≠ k) by (intros ->; rewrite (proj2 (eqb_eq k k)) in E; done).
      apply elem_of_cons in Hin as [[= -> ->] | Hin].
      * right. split; [done | left].
      * destruct (IH Hnd Hin) as [[-> [(vs & Hvs & ->) | [Hout ->]]] | [Hne Hin']].
        -- left. split; [done |]. left. exists vs. split; [by right | done].
        -- left. split; [done |]. right. split; [| done].
           intros [-> | ?]%elem_of_cons; done.
        -- right. split; [done | by right].
Qed.

(** The groups partition the values by key, each group in input order. *)
Lemma groups_spec (values : list A) :
  NoDup (map fst (D3.groups eqb key values)) ∧
  (∀ v, v ∈ values → key v ∈ map fst (D3.groups eqb key values)) ∧
  (∀ k vs, (k, vs) ∈ D3.groups eqb key values →
           vs = filter (λ v, key v = k) values ∧ vs ≠ []).
Proof.
  induction values as [|x values (Hnd & Hcov & Hmem)] using rev_ind.
  - split; [constructor |].
    split; [intros ? H | intros ? ? H]; by apply elem_of_nil in H.
  - rewrite groups_snoc. set (gs := D3.groups eqb key values) in *.
    split; [| split].
    + rewrite group_insert_keys. case_decide; [done |].
      apply NoDup_app. split; [done |]. split; [| apply NoDup_singleton].
      intros k Hk ->%list_elem_of_singleton. done.
    + intros v Hv. rewrite group_insert_keys.
      apply elem_of_app in Hv as [Hv | ->%list_elem_of_singleton].
      * case_decide; [by apply Hcov |]. apply elem_of_app. left. by apply Hcov.
      * case_decide; [done |]. apply elem_of_app. right. left.
    + intros k vs Hin. rewrite filter_app.
      apply group_insert_members in Hin
        as [[-> [(vs' & Hvs' & ->) | [Hout ->]]] | [Hne Hin]]; [| | | done].
      * destruct (Hmem _ _ Hvs') as [-> _].
        rewrite (filter_cons_True _ x []); [| done].
        split; [done |]. by intros [? ?]%app_eq_nil.
      * rewrite (filter_cons_True _ x []); [| done].
        replace (filter (λ v, key v = key x) values) with (@nil A); [done |].
        symmetry. apply elem_of_nil_inv. intros v [Hk Hv]%list_elem_of_filter.
        apply Hout. rewrite <- Hk. by apply Hcov.
      * destruct (Hmem _ _ Hin) as [-> Hne'].
        rewrite (filter_cons_False _ x []); [| congruence].
        by rewrite app_nil_r.
Qed.

End Grouping.

(** ** Strings *)

Lemma append_nil_l (s : string) : ("" ++ s)%string = s.
Proof. reflexivity. Qed.

Lemma append_cons (c : ascii) (s t : string) :
  (String c s ++ t)%string = String c (s ++ t)%string.
Proof. reflexivity. Qed.

Lemma prefix_true_iff (p s : string) :
  String.prefix p s = true ↔ ∃ rest, s = (p ++ rest)%string.
Proof.
  revert s. induction p as [|c p IH]; intros s.
  - split; [intros _; by exists s | intros _; by destruct s].
  - destruct s as [|c' s]; simpl.
    { split; [done | intros [rest Hrest]; by rewrite append_cons in Hrest]. }
    destruct (Ascii.ascii_dec c c') as [<- | Hne].
    + rewrite IH. split; intros [rest Hrest]; exists rest.
      * by rewrite append_cons, <- Hrest.
      * rewrite append_cons in Hrest. congruence.
    + split; [done | intros [rest Hrest]]. rewrite append_cons in Hrest. congruence.
Qed.

Lemma includes_unfold (hay needle : string) :
  includes hay needle =
  String.prefix needle hay ||
  match hay with String _ t => includes t needle | EmptyString => false end.
Proof. by destruct hay. Qed.

(** [includes] is substring containment. *)
Lemma includes_contains (hay needle : string) :
  includes hay needle = true ↔ contains hay needle.
Proof.
  unfold contains. split.
  - induction hay as [|c hay IH]; rewrite includes_unfold;
      intros [Hp | Ht]%orb_true_iff; try discriminate.
    + apply prefix_true_iff in Hp as [rest ->]. by exists EmptyString, rest.
    + apply prefix_true_iff in Hp as [rest ->]. by exists EmptyString, rest.
    + destruct (IH Ht) as (before & after & ->). by exists (String c before), after.
  - intros (before & after & ->). induction before as [|c before IH].
    + rewrite includes_unfold. apply orb_true_iff. left.
      apply prefix_true_iff. by exists after.
    + rewrite append_cons, includes_unfold. apply orb_true_iff. by right.
Qed.

Lemma substring_split (s : string) (n : nat) :
  n ≤ String.length s →
  (substring 0 n s ++ substring n (String.length s - n) s)%string = s.
Proof.
  revert n. induction s as [|c s IH]; intros [|n] Hn; simpl in *; try lia.
  - done.
  - rewrite append_nil_l. f_equal.
    clear. induction s as [|c' s IH]; simpl; [done | by rewrite IH].
  - rewrite append_cons. f_equal. apply IH. lia.
Qed.

Lemma length_substring (s : string) (n m : nat) :
  n + m ≤ String.length s → String.length (substring n m s) = m.
Proof.
  revert n m. induction s as [|c s IH]; intros [|n] [|m] Hn; simpl in *;
    try done; try lia.
  - f_equal. apply (IH 0 m). lia.
  - apply (IH n 0). lia.
  - apply (IH n (S m)). simpl. lia.
Qed.

(** [course.slice(0, -3)] and [course.slice(-3)] cut the id before its last
    three characters (or before all of it when it is shorter). *)
Lemma slice_last3 (course : string) :
  course = (slice course 0 (Some (-3)%Z) ++ slice course (-3) None)%string ∧
  String.length (slice course (-3) None) = min 3 (String.length course).
Proof.
  remember (min 3 (String.length course)) as m eqn:Hm.
  unfold slice. set (len := String.length course) in *. simpl.
  replace (Z.to_nat (Z.min 0 (Z.of_nat len))) with 0 by lia.
  replace (Z.to_nat (Z.max (Z.max (Z.of_nat len + -3) 0 - Z.min 0 (Z.of_nat len)) 0))
    with (len - 3) by lia.
  replace (Z.to_nat (Z.max (Z.of_nat len + -3) 0)) with (len - 3) by lia.
  replace (Z.to_nat (Z.max (Z.of_nat len - Z.max (Z.of_nat len + -3) 0) 0))
    with (len - (len - 3)) by lia.
  split.
  - symmetry. apply substring_split. lia.
  - rewrite length_substring; lia.
Qed.

(** ** The reducer and the rollup *)

Lemma key_eqb_eq (a b : option string) : key_eqb a b = true ↔ a = b.
Proof. unfold key_eqb. apply bool_decide_eq_true. Qed.

Lemma summarize_inv overview v s :
  summarize overview v = Ok s →
  ∃ d0 rest course,
    v = d0 :: rest ∧ d0 !! "Course" = Some course ∧
    let number := ToNumber (VStr (slice course (-3) None)) in
    let available := D3.sum v openSeats in
    let capacity := capacityOf overview course available in
    s = {| Summary.department := slice course 0 (Some (-3)%Z);
           Summary.number := number;
           Summary.title := d0 !! "title";
           Summary.capacity := capacity;
           Summary.available := available;
           Summary.percent_available := JsNumber.div available capacity;
           Summary.waitlist := D3.sum v waitList;
           Summary.undergrad := JsNumber.lt number (JsNumber.of_Z 500);
           Summary.studyAbroad := includes course "STDABRD" |}.
Proof.
  unfold summarize. destruct v as [|d0 rest]; [discriminate |].
  destruct (d0 !! "Course") as [course|] eqn:Hc; [| discriminate].
  intros [= <-]. by exists d0, rest, course.
Qed.

Lemma rollups_Ok_inv {K A B} (eqb : K → K → bool) (values : list A)
    (reduce : list A → outcome B) (key : A → K) rows k b :
  D3.rollups eqb values reduce key = Ok rows →
  (k, b) ∈ rows →
  ∃ vs, (k, vs) ∈ D3.groups eqb key values ∧ reduce vs = Ok b.
Proof.
  unfold D3.rollups. intros Hrows Hin. apply mapM_Ok_Forall2 in Hrows.
  apply list_elem_of_lookup in Hin as [i Hi].
  destruct (Forall2_lookup_r _ _ _ _ _ Hrows Hi) as ([k' vs] & Hg & Hred).
  simpl in Hred. inv_bind Hred. injection Hred as -> ->.
  exists vs. split; [| done]. apply list_elem_of_lookup. eauto.
Qed.

(** Every row of the rollup is the reducer applied to the countable
    sections of the course that keys it, and that group is not empty. *)
Lemma aggregate_inv overview sections rows key s :
  aggregate overview sections = Ok rows →
  (key, s) ∈ rows →
  ∃ course,
    key = Some course ∧
    countableSections course sections ≠ [] ∧
    summarize overview (countableSections course sections) = Ok s.
Proof.
  unfold aggregate. intros Hagg Hin. inv_bind Hagg.
  apply filterM_Ok in Ha as [-> _].
  destruct (rollups_Ok_inv _ _ _ _ _ _ _ Hagg Hin) as (vs & Hvs & Hred).
  destruct (groups_spec key_eqb (λ d : SectionRecord, d !! "Course") key_eqb_eq
              (filter (λ x, countable x = Ok true) sections))
    as (_ & _ & Hmem).
  destruct (Hmem _ _ Hvs) as [Heq Hne].
  destruct (summarize_inv _ _ _ Hred) as (d0 & rest & course & Hv & Hc & _).
  assert (Hkey : key = Some course).
  { assert (Hd0 : d0 ∈ vs) by (rewrite Hv; left).
    rewrite Heq in Hd0. apply list_elem_of_filter in Hd0 as [Hk _]. congruence. }
  subst key. exists course. split; [done |].
  unfold countableSections. rewrite <- list_filter_filter, <- Heq. done.
Qed.

(** ** Numbers *)

Lemma gt_ge (x y : JsNumber.number) : JsNumber.gt x y = true → JsNumber.ge x y = true.
Proof.
  unfold JsNumber.gt, JsNumber.ge, SFltb, SFleb.
  by destruct (SFcompare y x) as [[]|].
Qed.

Lemma SFcompare_refl (x : JsNumber.number) :
  JsNumber.isNaN x = false → SFcompare x x = Some Eq.
Proof.
  destruct x as [[]|[]| |[] m e]; simpl; try done; intros _;
    by rewrite Z.compare_refl, Pos.compare_cont_refl.
Qed.

Lemma ge_refl (x : JsNumber.number) : JsNumber.isNaN x = false → JsNumber.ge x x = true.
Proof. intros H. unfold JsNumber.ge, SFleb. by rewrite SFcompare_refl. Qed.

(** ** The run up to the first publish *)

Lemma collect_inv w sections rows :
  collect w = Ok (sections, rows) →
  ∃ courses overview,
    getCourses w = Ok courses ∧
    getSections w courses term = Ok sections ∧
    getOverview w = Ok overview ∧
    aggregate overview sections = Ok rows.
Proof.
  unfold collect. intros H. inv_bind H. injection H as <- <-.
  by exists a, a1.
Qed.

Lemma getOverview_unavailable w cache overview :
  prior w = Response false cache → getOverview w = Ok overview → overview = None.
Proof. unfold getOverview. intros ->. by intros [= <-]. Qed.

(** ** Capacity *)

Lemma capacityOf_hint overview course available :
  capacityOf overview course available =
  match hint overview course with
  | Some potential => if JsNumber.gt potential available then potential else available
  | None => available
  end.
Proof.
  unfold capacityOf, hint. destruct overview as [table|]; [| done].
  by destruct (D3.get table (VStr course)).
Qed.

(** ** The available share *)

Lemma lt_zero_div_zero (x : JsNumber.number) sign :
  SFltb x (S754_zero sign) = true →
  JsNumber.lt x JsNumber.zero = true ∧
  JsNumber.div x (S754_zero sign) = S754_infinity (negb sign).
Proof. by destruct x as [[]|[]| |[] m e], sign. Qed.

(** ** Waitlist *)

Lemma waitList_normalized (d : SectionRecord) :
  waitList d = normalized (d !! "Wait List").
Proof.
  unfold waitList, normalized.
  destruct (d !! "Wait List") as [text|]; case_decide as H; try done.
  - injection H as ->. done.
  - destruct (String.eqb_spec text "-") as [-> | Hne]; done.
Qed.

Lemma sum_ext {A} (values : list A) (f g : A → JsNumber.number) :
  (∀ d, f d = g d) → D3.sum values f = D3.sum values g.
Proof.
  intros Hfg. unfold D3.sum. generalize JsNumber.zero.
  induction values as [|d values IH]; intros acc; simpl; [done |].
  by rewrite Hfg, IH.
Qed.

Lemma handler_Ok_inv w log :
  handler w = (log, Ok ()) →
  ∃ sections rows,
    collect w = Ok (sections, rows) ∧
    log = [overviewCommand (map snd rows);
           stubCommand (publish_clock w) (map stubRow sections)].
Proof.
  unfold handler. destruct (collect w) as [[sections rows]|]; [| by intros [= _]].
  destruct (send w (overviewCommand (map snd rows))) as [[]|]; [| by intros [= _]].
  intros [= <- _]. by exists sections, rows.
Qed.

(** *** Digit strings coerce to the integer they denote *)

Lemma digits_all_digits (text : string) (acc : Z) (cnt : nat) :
  all_digits text = true →
  (0 ≤ acc)%Z →
  (acc * 10 ^ Z.of_nat (String.length text) ≤ decimalValue acc text
   < (acc + 1) * 10 ^ Z.of_nat (String.length text))%Z ∧
  JsNumber.digits 10 text acc cnt
  = (decimalValue acc text, cnt + String.length text, EmptyString).
Proof.
  revert acc cnt. induction text as [|c text IH]; intros acc cnt Hall Hacc.
  - simpl. replace (cnt + 0) with cnt by lia. split; [lia | done].
  - simpl in Hall. apply andb_true_iff in Hall as [Hc Hall].
    apply andb_true_iff in Hc as [Hlo Hhi].
    apply Z.leb_le in Hlo, Hhi.
    cbn [JsNumber.digits decimalValue]. unfold JsNumber.digit_of, digitValue.
    set (n := Z.of_N (N_of_ascii c)) in *.
    replace ((48 <=? n)%Z && (n <=? 57)%Z) with true
      by (symmetry; apply andb_true_iff; split; by apply Z.leb_le).
    replace (n - 48 <? 10)%Z with true by (symmetry; apply Z.ltb_lt; lia).
    destruct (IH (10 * acc + (n - 48))%Z (S cnt) Hall) as (Hv & Hd); [lia |].
    rewrite Hd. split.
    + cbn [String.length]. rewrite Nat2Z.inj_succ, Z.pow_succ_r by lia. nia.
    + f_equal. f_equal. cbn [String.length]. lia.
Qed.

Lemma all_digits_trim (text : string) : all_digits text = true → trim text = text.
Proof.
  intros Hall. unfold trim.
  assert (Hws : ∀ c, (48 <=? Z.of_N (N_of_ascii c))%Z && (Z.of_N (N_of_ascii c) <=? 57)%Z = true →
                     isWhiteSpace c = false).
  { intros c [Hlo Hhi]%andb_true_iff. apply Z.leb_le in Hlo, Hhi.
    unfold isWhiteSpace.
    repeat (apply orb_false_iff; split); [apply andb_false_iff; right | |];
      first [apply N.leb_gt | apply N.eqb_neq]; lia. }
  assert (Hstart : trimStart text = text).
  { destruct text as [|c rest]; [done |]. simpl in *.
    apply andb_true_iff in Hall as [Hc _]. by rewrite (Hws c Hc). }
  rewrite Hstart. clear Hstart.
  induction text as [|c rest IH]; [done |]. simpl in *.
  apply andb_true_iff in Hall as [Hc Hall]. rewrite (IH Hall), (Hws c Hc).
  by destruct rest.
Qed.

Lemma is_digit_cases (c : ascii) :
  (48 <=? Z.of_N (N_of_ascii c))%Z && (Z.of_N (N_of_ascii c) <=? 57)%Z = true →
  c ∈ ["0"; "1"; "2"; "3"; "4"; "5"; "6"; "7"; "8"; "9"]%char.
Proof.
  destruct c as [[] [] [] [] [] [] [] []]; intros H; try discriminate H;
    repeat first [apply list_elem_of_here | apply list_elem_of_further].
Qed.

Ltac digit_cases c H :=
  apply is_digit_cases in H;
  repeat (apply elem_of_cons in H as [-> | H]); [.. | by apply elem_of_nil in H].

Lemma StringToNumber_all_digits (text : string) :
  all_digits text = true → text ≠ EmptyString →
  (0 ≤ decimalValue 0 text < 10 ^ Z.of_nat (String.length text))%Z ∧
  JsNumber.StringToNumber text = JsNumber.of_Z (decimalValue 0 text).
Proof.
  intros Hall Hne.
  destruct (digits_all_digits text 0 0 Hall) as (Hn & Hd); [lia |].
  set (n := decimalValue 0 text) in *. split; [lia |].
  assert (Hu : JsNumber.unsigned_decimal false text = JsNumber.of_Z n).
  { unfold JsNumber.unsigned_decimal. rewrite Hd.
    destruct text as [|c rest]; [done |].
    assert (String.eqb (String c rest) "Infinity" = false) as ->.
    { simpl in Hall. apply andb_true_iff in Hall as [Hc _].
      digit_cases c Hc; reflexivity. }
    cbn [JsNumber.exponent_part String.length Nat.add].
    unfold JsNumber.of_Z. replace (n <? 0)%Z with false by (symmetry; apply Z.ltb_ge; lia).
    rewrite Z.abs_eq by lia. by rewrite Z.sub_0_r. }
  rewrite <- Hu. unfold JsNumber.StringToNumber. rewrite (all_digits_trim _ Hall).
  destruct text as [|c rest]; [done |].
  pose proof Hall as Hall'. simpl in Hall'.
  apply andb_true_iff in Hall' as [Hc Hrest].
  digit_cases c Hc; try reflexivity.
  destruct rest as [|c' rest']; [reflexivity |].
  simpl in Hrest. apply andb_true_iff in Hrest as [Hc' _].
  digit_cases c' Hc'; reflexivity.
Qed.

(** ** Countable sections *)

Lemma countable_true_iff (d : SectionRecord) :
  countable d = Ok true ↔
  ∃ label, d !! "Section" = Some label ∧
           (contains label "LEC" ∨ contains label "SEM" ∨
            contains label "REC" ∨ contains label "IND").
Proof.
  unfold countable. destruct (d !! "Section") as [label|].
  - split.
    + intros [= H]. exists label. split; [done |].
      repeat (apply orb_true_iff in H as [H | H]);
        apply includes_contains in H; auto.
    + intros (? & [= <-] & H). f_equal.
      rewrite <- !includes_contains in H.
      destruct H as [H | [H | [H | H]]]; rewrite H; by rewrite ?orb_true_r.
  - split; [done | by intros (? & ? & _)].
Qed.

(** ** The hint table *)



Lemma SameValueZero_VStr (v : value) (text : string) :
  SameValueZero v (VStr text) = true → v = VStr text.
Proof.
  destruct v; simpl; try done. intros H. f_equal. by apply String.eqb_eq.
Qed.


Lemma length_append (s t : string) :
  String.length (s ++ t)%string = String.length s + String.length t.
Proof. induction s as [|c s IH]; [done |]. rewrite append_cons. simpl. by rewrite IH. Qed.

Lemma substring_append_l (s t : string) :
  substring 0 (String.length s) (s ++ t)%string = s.
Proof. induction s as [|c s IH]; [by destruct t |]. rewrite append_cons. simpl. by rewrite IH. Qed.

Lemma substring_append_r (s t : string) :
  substring (String.length s) (String.length t) (s ++ t)%string = t.
Proof.
  induction s as [|c s IH]; [| by rewrite append_cons].
  rewrite append_nil_l. simpl. induction t as [|c t IH]; [done |]. simpl. by rewrite IH.
Qed.

Lemma slice_append3 (department tail : string) :
  String.length tail = 3 →
  slice (department ++ tail)%string 0 (Some (-3)%Z) = department ∧
  slice (department ++ tail)%string (-3) None = tail.
Proof.
  intros Htail. unfold slice. rewrite length_append, Htail.
  set (n := String.length department). simpl.
  replace (Z.to_nat (Z.min 0 (Z.of_nat (n + 3)))) with 0 by lia.
  replace (Z.to_nat (Z.max (Z.max (Z.of_nat (n + 3) + -3) 0
                            - Z.min 0 (Z.of_nat (n + 3))) 0)) with n by lia.
  replace (Z.to_nat (Z.max (Z.of_nat (n + 3) + -3) 0)) with n by lia.
  replace (Z.to_nat (Z.max (Z.of_nat (n + 3) - Z.max (Z.of_nat (n + 3) + -3) 0) 0))
    with (String.length tail) by lia.
  split; [apply substring_append_l | apply substring_append_r].
Qed.



(** ** Extraction *)

Lemma split_nonempty (sep : ascii) (text : string) : split sep text ≠ [].
Proof.
  destruct text as [|c text]; simpl; [done |].
  destruct (Ascii.eqb c sep); [done |]. by destruct (split sep text).
Qed.

Lemma split_contains (sep : ascii) (text : string) :
  contains text (String sep EmptyString) →
  ∃ key value rest, split sep text = key :: value :: rest.
Proof.
  intros (before & after & ->). induction before as [|c before IH].
  - rewrite append_nil_l, append_cons, append_nil_l. simpl.
    rewrite Ascii.eqb_refl.
    destruct (split sep after) as [|p ps] eqn:E; [by apply split_nonempty in E |].
    by exists EmptyString, p, ps.
  - rewrite append_cons. simpl. destruct IH as (key & value & rest & ->).
    destruct (Ascii.eqb c sep); eauto.
Qed.

Lemma trimStart_contains (text : string) (c : ascii) :
  isWhiteSpace c = false →
  contains text (String c EmptyString) → contains (trimStart text) (String c EmptyString).
Proof.
  intros Hc. induction text as [|c0 text IH]; [done |]. simpl.
  destruct (isWhiteSpace c0) eqn:E; [| done].
  intros (before & after & Heq). apply IH.
  destruct before as [|b before].
  - rewrite append_nil_l, append_cons in Heq. injection Heq as -> _. congruence.
  - rewrite append_cons in Heq. injection Heq as _ ->. by exists before, after.
Qed.

Lemma trimEnd_contains (text : string) (c : ascii) :
  isWhiteSpace c = false →
  contains text (String c EmptyString) → contains (trimEnd text) (String c EmptyString).
Proof.
  intros Hc. induction text as [|c0 text IH]; [done |].
  intros (before & after & Heq). simpl. destruct before as [|b before].
  - rewrite append_nil_l, append_cons in Heq. injection Heq as -> _.
    rewrite Hc. destruct (trimEnd text) as [|c1 rest].
    + by exists EmptyString, EmptyString.
    + by exists EmptyString, (String c1 rest).
  - rewrite append_cons in Heq. injection Heq as _ ->.
    destruct IH as (before' & after' & Heq'); [by exists before, after |].
    rewrite Heq'. destruct (before' ++ String c EmptyString ++ after')%string eqn:E.
    + by destruct before'.
    + rewrite <- E. by exists (String c0 before'), after'.
Qed.

Lemma extractColumn_colon (section : SectionRecord) (text : string) :
  includes text ":" = true →
  ∃ value, extractColumn section text = Ok (set_property section (labelOf text) value).
Proof.
  intros Hcolon%includes_contains.
  apply (trimStart_contains _ ":"%char eq_refl), (trimEnd_contains _ ":"%char eq_refl)
    in Hcolon.
  destruct (split_contains _ _ Hcolon) as (key & value & rest & Hsplit).
  unfold extractColumn, labelOf, trim. rewrite Hsplit. simpl. eauto.
Qed.

Lemma set_property_is_Some (section : SectionRecord) key value label :
  is_Some (section !! label) → is_Some (set_property section key value !! label).
Proof.
  unfold set_property. destruct (String.eqb key "__proto__"); [done |].
  intros H. destruct (decide (key = label)) as [-> | Hne].
  - rewrite lookup_insert_eq. eauto.
  - by rewrite lookup_insert_ne.
Qed.

Lemma set_property_other (section : SectionRecord) key value label :
  key ≠ label → set_property section key value !! label = section !! label.
Proof.
  intros Hne. unfold set_property. destruct (String.eqb key "__proto__"); [done |].
  by rewrite lookup_insert_ne.
Qed.

Lemma set_property_same (section : SectionRecord) key value :
  key ≠ "__proto__" → set_property section key value !! key = Some value.
Proof.
  intros Hne. unfold set_property.
  destruct (String.eqb_spec key "__proto__"); [done |]. apply lookup_insert_eq.
Qed.

(** A row whose columns all hold a colon is extracted; the record keeps the
    fields it had, gains one per label, and nothing else. *)
Lemma extractColumns_colon (section : SectionRecord) (row : list string) :
  (∀ text, text ∈ row → includes text ":" = true) →
  ∃ d, extractColumns section row = Ok d ∧
       (∀ label, is_Some (section !! label) → is_Some (d !! label)) ∧
       (∀ label, (∀ text, text ∈ row → labelOf text ≠ label) →
                 d !! label = section !! label) ∧
       (∀ text, text ∈ row → labelOf text ≠ "__proto__" →
                is_Some (d !! labelOf text)).
Proof.
  revert section. induction row as [|text row IH]; intros section Hrow; simpl.
  - exists section. repeat split; try done. intros text Hin. by apply elem_of_nil in Hin.
  - destruct (extractColumn_colon section text) as [value ->]; [apply Hrow; left |].
    simpl.
    destruct (IH (set_property section (labelOf text) value)) as (d & -> & Hkeep & Hother & Hnew).
    { intros text' Hin. apply Hrow. by right. }
    exists d. split; [done |]. split; [| split].
    + intros label Hlabel. by apply Hkeep, set_property_is_Some.
    + intros label Hlabel. rewrite Hother.
      * apply set_property_other, Hlabel. left.
      * intros text' Hin. apply Hlabel. by right.
    + intros text' [-> | Hin]%elem_of_cons Hproto; [| by apply Hnew].
      apply Hkeep. rewrite set_property_same by done. eauto.
Qed.

(** The object literal that a row starts from. *)
Lemma init_record_lookup (name : option string) time (title : option string) label :
  init_property (<["Time" := time]> (init_property ∅ "Course" name)) "title" title !! label
  = if decide (label = "Course") then name
    else if decide (label = "Time") then Some time
    else if decide (label = "title") then title
    else None.
Proof.
  destruct name as [name|], title as [title|]; cbn [init_property];
    repeat case_decide; subst; try done;
    repeat first [rewrite lookup_insert_eq | rewrite lookup_insert_ne by done];
    try done; apply lookup_empty.
Qed.

Lemma extractRow_colon name time title (row : list string) :
  (∀ text, text ∈ row → includes text ":" = true) →
  ∃ d, extractRow name time title row = Ok d ∧
       (is_Some name → is_Some (d !! "Course")) ∧
       (∀ label, label ∉ ["Course"; "Time"; "title"] →
                 (∀ text, text ∈ row → labelOf text ≠ label) → d !! label = None) ∧
       (∀ text, text ∈ row → labelOf text ≠ "__proto__" →
                is_Some (d !! labelOf text)).
Proof.
  intros Hrow. unfold extractRow.
  destruct (extractColumns_colon
              (init_property (<["Time" := time]> (init_property ∅ "Course" name))
                             "title" title) row Hrow)
    as (d & Hd & Hkeep & Hother & Hnew).
  exists d. split; [done |]. split; [| split; [| done]].
  - intros Hname. apply Hkeep. by rewrite init_record_lookup.
  - intros label Hbase Hlabel. rewrite (Hother label Hlabel), init_record_lookup.
    repeat case_decide; subst; try done; exfalso; apply Hbase; set_solver.
Qed.

Lemma extractRows_colon name title now i (page : list (list string)) :
  is_Some name →
  (∀ row, row ∈ page →
     (∀ text, text ∈ row → includes text ":" = true) ∧
     (∃ text, text ∈ row ∧ labelOf text = "Section")) →
  ∃ sections, extractRows name title now i page = Ok sections ∧
              ∀ d, d ∈ sections → is_Some (d !! "Course") ∧ is_Some (d !! "Section").
Proof.
  intros Hname. revert i. induction page as [|row page IH]; intros i Hpage; simpl.
  - exists []. split; [done |]. intros d Hd. by apply elem_of_nil in Hd.
  - destruct (Hpage row) as [Hcolon (text & Htext & Hlabel)]; [left |].
    destruct (extractRow_colon name (now i) title row Hcolon)
      as (d & -> & Hcourse & _ & Hnew).
    destruct (IH (S i)) as (sections & -> & Hsections).
    { intros row' Hin. apply Hpage. by right. }
    simpl. exists (d :: sections). split; [done |].
    intros d' [-> | Hin]%elem_of_cons; [| by apply Hsections].
    split; [by apply Hcourse |]. rewrite <- Hlabel. apply Hnew; [done |]. by rewrite Hlabel.
Qed.

(** ** Aggregation is total on labelled records *)

Lemma aggregate_total overview (sections : list SectionRecord) :
  (∀ d, d ∈ sections → is_Some (d !! "Course") ∧ is_Some (d !! "Section")) →
  ∃ rows, aggregate overview sections = Ok rows.
Proof.
  intros Hfields. unfold aggregate.
  destruct (filterM_total countable sections) as [primary Hprimary].
  { intros d Hd. destruct (Hfields d Hd) as [_ [label Hlabel]].
    unfold countable. rewrite Hlabel. eauto. }
  rewrite Hprimary. simpl. apply filterM_Ok in Hprimary as [-> _].
  unfold D3.rollups. apply mapM_total. intros [k vs] Hg.
  destruct (groups_origin _ _ _ _ Hg) as (v0 & vs' & Hsnd & _ & Hv0).
  simpl in *. subst vs.
  apply list_elem_of_filter in Hv0 as [_ Hv0].
  destruct (Hfields v0 Hv0) as [[course Hcourse] _].
  unfold summarize. rewrite Hcourse. simpl. eauto.
Qed.

(** ** The pipeline on labelled rows *)

Section LabelledRows.
Variable w : World.
Hypothesis resolved : ∀ content, detail w content ≠ Rejected.
Hypothesis labelled :
  ∀ content page row,
    detail w content = Response true page → row ∈ page →
    (∀ text, text ∈ row → includes text ":" = true) ∧
    (∃ text, text ∈ row ∧ labelOf text = "Section").

Lemma getCourseSections_labelled content_prefix entry :
  is_Some (fst entry) →
  ∃ sections,
    getCourseSections w content_prefix entry = Ok sections ∧
    ∀ d, d ∈ sections → is_Some (d !! "Course") ∧ is_Some (d !! "Section").
Proof.
  destruct entry as [name info]. intros Hname. unfold getCourseSections.
  destruct (detail w _) as [|[] page] eqn:Hdetail.
  - by apply resolved in Hdetail.
  - apply extractRows_colon; [done |]. intros row Hrow. by apply (labelled _ _ _ Hdetail).
  - exists []. split; [done |]. intros d Hd. by apply elem_of_nil in Hd.
Qed.

Lemma getSections_labelled entries :
  (∀ entry, entry ∈ entries → is_Some (fst entry)) →
  ∃ sections,
    getSections w (Some entries) term = Ok sections ∧
    ∀ d, d ∈ sections → is_Some (d !! "Course") ∧ is_Some (d !! "Section").
Proof.
  unfold getSections, Async.mapLimit, NUM_OPERATIONS.
  set (f := getCourseSections w _).
  induction entries as [|entry entries IH]; intros Hnames; simpl.
  - exists []. split; [done |]. intros d Hd. by apply elem_of_nil in Hd.
  - destruct IH as (sections & Hsections & Hfields).
    { intros entry' Hin. apply Hnames. by right. }
    destruct (getCourseSections_labelled (List.last (split "_" term) EmptyString) entry)
      as (first & Hfirst & Hfirst_fields); [apply Hnames; left |].
    fold f in Hfirst. rewrite Hfirst. simpl.
    destruct (mapM f entries) as [lists|]; [| discriminate Hsections].
    simpl in *. injection Hsections as <-.
    exists (first ++ concat lists). split; [done |].
    intros d [Hd | Hd]%elem_of_app; auto.
Qed.
End LabelledRows.

(** ** Failed detail fetches *)

Section CoursesMap.
Context {V : Type}.
Implicit Types (m : list (option string * V)) (k name : option string) (v : V).

Lemma new_Map_snoc (pairs : list (option string * V)) (kv : option string * V) :
  D3.new_Map (pairs ++ [kv]) = D3.map_set (D3.new_Map pairs) (fst kv) (snd kv).
Proof. unfold D3.new_Map. by rewrite fold_left_app. Qed.

Lemma map_set_keys m k v :
  map fst (D3.map_set m k v) =
  if decide (k ∈ map fst m) then map fst m else map fst m ++ [k].
Proof.
  induction m as [|[k' v'] m IH]; cbn [D3.map_set map fst app].
  - rewrite decide_False; [done | apply not_elem_of_nil].
  - case_bool_decide as Hk; [subst k' |]; cbn [map fst].
    + rewrite decide_True; [done | left].
    + rewrite IH. destruct (decide (k ∈ map fst m)) as [Hin | Hout].
      * rewrite decide_True; [done | by right].
      * rewrite decide_False; [done |]. intros [-> | ?]%elem_of_cons; done.
Qed.

Lemma new_Map_NoDup (pairs : list (option string * V)) : NoDup (map fst (D3.new_Map pairs)).
Proof.
  induction pairs as [|kv pairs IH] using rev_ind; [constructor |].
  rewrite new_Map_snoc, map_set_keys. case_decide; [done |].
  apply NoDup_app. split; [done |]. split; [| apply NoDup_singleton].
  intros k Hk ->%list_elem_of_singleton. done.
Qed.

Lemma new_Map_keys (pairs : list (option string * V)) k :
  k ∈ map fst (D3.new_Map pairs) ↔ k ∈ map fst pairs.
Proof.
  induction pairs as [|[k' v'] pairs IH] using rev_ind; [done |].
  rewrite new_Map_snoc, map_set_keys, map_app, elem_of_app. simpl.
  rewrite list_elem_of_singleton, <- IH.
  case_decide as Hin; [| by rewrite elem_of_app, list_elem_of_singleton].
  split; [auto | intros [? | ->]; done].
Qed.

Lemma map_set_elem m k v kv : kv ∈ D3.map_set m k v → kv = (k, v) ∨ kv ∈ m.
Proof.
  induction m as [|[k' v'] m IH]; simpl.
  - intros ->%list_elem_of_singleton. by left.
  - case_bool_decide as Hk; [subst k' |].
    + intros [-> | Hin]%elem_of_cons; [by left | right; by right].
    + intros [-> | Hin]%elem_of_cons; [right; left |].
      destruct (IH Hin) as [-> | ?]; [by left | right; by right].
Qed.

Lemma new_Map_elem (pairs : list (option string * V)) kv :
  kv ∈ D3.new_Map pairs → kv ∈ pairs.
Proof.
  induction pairs as [|[k v] pairs IH] using rev_ind; [done |].
  rewrite new_Map_snoc. simpl. intros Hin. apply elem_of_app.
  apply map_set_elem in Hin as [-> | Hin]; [right; left | left; by apply IH].
Qed.

Lemma map_set_same m k v : (k, v) ∈ D3.map_set m k v.
Proof.
  induction m as [|[k' v'] m IH]; simpl; [left |].
  case_bool_decide as Hk; [subst k'; left | by right].
Qed.

Lemma map_set_other m k v k' v' :
  k' ≠ k → (k, v) ∈ m → (k, v) ∈ D3.map_set m k' v'.
Proof.
  intros Hne. induction m as [|[k0 v0] m IH]; simpl; [by intros ?%elem_of_nil |].
  intros [[= <- <-] | Hin]%elem_of_cons.
  - case_bool_decide as Hk; [by subst k' | left].
  - case_bool_decide; right; auto.
Qed.

(** The last pair of a key decides its value. *)
Lemma new_Map_last (before after : list (option string * V)) k v :
  (∀ kv, kv ∈ after → fst kv ≠ k) →
  (k, v) ∈ D3.new_Map (before ++ (k, v) :: after).
Proof.
  induction after as [|[k' v'] after IH] using rev_ind; intros Hafter.
  - rewrite new_Map_snoc. apply map_set_same.
  - rewrite app_comm_cons, app_assoc, new_Map_snoc. simpl.
    apply map_set_other.
    + apply (Hafter (k', v')). apply elem_of_app. right. left.
    + apply IH. intros kv Hkv. apply Hafter, elem_of_app. by left.
Qed.

Lemma map_set_filter m k v name :
  filter (λ kv, fst kv ≠ name) (D3.map_set m k v) =
  if decide (k = name) then filter (λ kv, fst kv ≠ name) m
  else D3.map_set (filter (λ kv, fst kv ≠ name) m) k v.
Proof.
  induction m as [|[k' v'] m IH]; cbn [D3.map_set].
  - case_decide as Hk.
    + by rewrite filter_cons_False by (simpl; auto).
    + by rewrite filter_cons_True.
  - case_bool_decide as Hkk; [subst k' |].
    + case_decide as Hk.
      * subst name. by rewrite !filter_cons_False by (simpl; auto).
      * rewrite !filter_cons_True by done. cbn [D3.map_set].
        by rewrite bool_decide_eq_true_2.
    + destruct (decide (k' = name)) as [-> | Hk'].
      * rewrite !filter_cons_False by (simpl; auto). rewrite IH.
        case_decide; [done |]. done.
      * rewrite !filter_cons_True by done. rewrite IH.
        case_decide; [done |]. cbn [D3.map_set].
        by rewrite bool_decide_eq_false_2.
Qed.

Lemma new_Map_filter (pairs : list (option string * V)) name :
  D3.new_Map (filter (λ kv, fst kv ≠ name) pairs)
  = filter (λ kv, fst kv ≠ name) (D3.new_Map pairs).
Proof.
  induction pairs as [|kv pairs IH] using rev_ind; [done |].
  rewrite filter_app, new_Map_snoc, map_set_filter.
  destruct (decide (fst kv = name)) as [Hk | Hk].
  - rewrite filter_cons_False by auto. by rewrite app_nil_r.
  - rewrite filter_cons_True by done. by rewrite new_Map_snoc, IH.
Qed.

Lemma NoDup_keys_unique m k v v' :
  NoDup (map fst m) → (k, v) ∈ m → (k, v') ∈ m → v = v'.
Proof.
  induction m as [|[k0 v0] m IH]; intros Hnd Hv Hv'; [by apply elem_of_nil in Hv |].
  apply NoDup_cons in Hnd as [Hk0 Hnd].
  assert (Hkey : ∀ u, (k0, u) ∈ m → False).
  { intros u Hu. apply Hk0, list_elem_of_In, in_map_iff.
    exists (k0, u). split; [done | by apply list_elem_of_In]. }
  apply elem_of_cons in Hv as [Hv | Hv]; apply elem_of_cons in Hv' as [Hv' | Hv'].
  - congruence.
  - injection Hv as -> ->. by apply Hkey in Hv'.
  - injection Hv' as -> ->. by apply Hkey in Hv.
  - by apply IH.
Qed.
End CoursesMap.

Lemma entriesOf_without (cache : list CourseRow) (name : option string) :
  entriesOf (filter (λ r, course r ≠ name) cache)
  = filter (λ kv, fst kv ≠ name) (entriesOf cache).
Proof.
  unfold entriesOf. rewrite <- new_Map_filter. f_equal.
  induction cache as [|r cache IH]; [done |]. simpl.
  destruct (decide (course r = name)) as [Hr | Hr].
  - rewrite !filter_cons_False by (simpl; auto). done.
  - rewrite !filter_cons_True by done. simpl. by rewrite IH.
Qed.

(** Entries whose call yields no record can be left out of the map. *)
Lemma mapM_concat_skip {A B} (f : A → outcome (list B)) (keep : A → Prop)
    `{∀ x, Decision (keep x)} (xs : list A) :
  (∀ x, x ∈ xs → ¬ keep x → f x = Ok []) →
  (mapM f xs ≫= λ lists, Ok (concat lists))
  = (mapM f (filter keep xs) ≫= λ lists, Ok (concat lists)).
Proof.
  induction xs as [|x xs IH]; intros Hskip; [done |].
  assert (IH' := IH (λ y Hy, Hskip y (list_elem_of_further _ _ _ Hy))).
  destruct (decide (keep x)) as [Hx | Hx].
  - rewrite filter_cons_True by done. simpl. destruct (f x) as [ys|]; [| done]. simpl.
    destruct (mapM f xs) as [lists|]; destruct (mapM f (filter keep xs)) as [lists'|];
      simpl in *; congruence.
  - rewrite filter_cons_False by done. simpl.
    rewrite (Hskip x (list_elem_of_here _ _) Hx). simpl. rewrite <- IH'.
    by destruct (mapM f xs).
Qed.

Lemma getSections_skip w entries name info :
  NoDup (map fst entries) →
  (name, info) ∈ entries →
  getCourseSections w (List.last (split "_" term) EmptyString) (name, info) = Ok [] →
  getSections w (Some (filter (λ kv, fst kv ≠ name) entries)) term
  = getSections w (Some entries) term.
Proof.
  intros Hnd Hin Hempty. unfold getSections, Async.mapLimit, NUM_OPERATIONS.
  symmetry. apply mapM_concat_skip.
  intros [k info'] Hk Hname. simpl in Hname.
  assert (k = name) as -> by (by destruct (decide (k = name))).
  by rewrite (NoDup_keys_unique _ _ _ _ Hnd Hk Hin).
Qed.

(** ** The worker pool *)

Section Pool.
Context {A : Type}.
Implicit Types (running todo : list A) (p : Async.pool A).

Lemma replenish_bound limit running todo :
  length running ≤ limit →
  length (Async.in_flight (Async.replenish limit running todo)) ≤ limit.
Proof.
  revert running. induction todo as [|elem todo IH]; intros running Hle; simpl.
  - done.
  - destruct (length running <? limit)%nat eqn:E; simpl; [| done].
    apply Nat.ltb_lt in E. apply IH. rewrite length_app. simpl. lia.
Qed.

(** The pool takes up as many calls as the limit and the collection allow. *)
Lemma replenish_fills limit running todo :
  length running ≤ limit →
  length (Async.in_flight (Async.replenish limit running todo))
  = min limit (length running + length todo).
Proof.
  revert running. induction todo as [|elem todo IH]; intros running Hle; simpl.
  - lia.
  - destruct (length running <? limit) eqn:E; simpl.
    + apply Nat.ltb_lt in E. rewrite IH; rewrite length_app; simpl; lia.
    + apply Nat.ltb_ge in E. lia.
Qed.

Lemma settle_bound limit i err p :
  length (Async.in_flight p) ≤ limit →
  length (Async.in_flight (Async.settle limit i err p)) ≤ limit.
Proof.
  intros Hle. unfold Async.settle.
  destruct (Async.in_flight p !! i) eqn:Hi; [| done].
  assert (length (delete i (Async.in_flight p)) ≤ limit).
  { rewrite length_delete by eauto. lia. }
  destruct (err || Async.done p); simpl; [done |].
  by apply replenish_bound.
Qed.

Lemma run_bound limit events p :
  length (Async.in_flight p) ≤ limit →
  length (Async.in_flight (Async.run limit events p)) ≤ limit.
Proof.
  revert p. induction events as [|[i err] events IH]; intros p Hle; simpl; [done |].
  apply IH. by apply settle_bound.
Qed.
End Pool.

(** ** Which errors a run can end with *)

Lemma mapM_Throw_inv {A B} (f : A → outcome B) (xs : list A) e :
  mapM f xs = Throw e → ∃ x, x ∈ xs ∧ f x = Throw e.
Proof.
  induction xs as [|x xs IH]; simpl; [done |].
  destruct (f x) as [y|e'] eqn:Hx; simpl.
  - destruct (mapM f xs) as [ys|e'']; simpl; [done |]. intros [= ->].
    destruct IH as (x' & Hin & Hx'); [done |]. exists x'. split; [by right | done].
  - intros [= ->]. exists x. split; [left | done].
Qed.

Lemma filterM_Throw_inv {A} (f : A → outcome bool) (xs : list A) e :
  filterM f xs = Throw e → ∃ x, x ∈ xs ∧ f x = Throw e.
Proof.
  induction xs as [|x xs IH]; simpl; [done |].
  destruct (f x) as [y|e'] eqn:Hx; simpl.
  - destruct (filterM f xs) as [ys|e'']; simpl; [done |]. intros [= ->].
    destruct IH as (x' & Hin & Hx'); [done |]. exists x'. split; [by right | done].
  - intros [= ->]. exists x. split; [left | done].
Qed.

Lemma extractColumns_Throw section row e :
  extractColumns section row = Throw e → e = TypeError.
Proof.
  revert section. induction row as [|text row IH]; intros section; simpl; [done |].
  unfold extractColumn at 1.
  destruct (split ":" (trim text)) as [|key [|value pieces]]; simpl;
    try (by intros [= <-]).
  apply IH.
Qed.

Lemma extractRows_Throw name title now i page e :
  extractRows name title now i page = Throw e → e = TypeError.
Proof.
  revert i. induction page as [|row page IH]; intros i; simpl; [done |].
  destruct (extractRow name (now i) title row) as [d|e'] eqn:Hrow; simpl.
  - destruct (extractRows name title now (S i) page) as [ds|e''] eqn:Hrows; simpl;
      [done |]. intros [= ->]. by apply (IH (S i)).
  - intros [= ->]. by apply extractColumns_Throw in Hrow.
Qed.

Lemma getCourseSections_Throw w content_prefix entry e :
  getCourseSections w content_prefix entry = Throw e →
  e = FetchError ∨ e = TypeError.
Proof.
  destruct entry as [name info]. unfold getCourseSections.
  destruct (detail w _) as [|[] page]; [intros [= <-]; by left | | done].
  intros H%extractRows_Throw. by right.
Qed.

Lemma getSections_Throw w courses e :
  getSections w courses term = Throw e → e = FetchError ∨ e = TypeError.
Proof.
  unfold getSections. destruct courses as [entries|]; [| intros [= <-]; by right].
  unfold Async.mapLimit, NUM_OPERATIONS. cbv iota beta.
  match goal with |- context [mapM ?f entries] => destruct (mapM f entries) as [lists|e'] eqn:Hmap end;
    simpl; [done |].
  intros [= ->]. apply mapM_Throw_inv in Hmap as (entry & _ & Hentry).
  by apply getCourseSections_Throw in Hentry.
Qed.

Lemma getOverview_Throw w e :
  getOverview w = Throw e → e = FetchError ∨ e = DuplicateKey.
Proof.
  unfold getOverview. destruct (prior w) as [|[] overview]; [intros [= <-]; by left | | done].
  unfold D3.index.
  match goal with |- context [mapM ?f ?gs] => destruct (mapM f gs) as [table|e'] eqn:Hmap end;
    simpl; [done |].
  intros [= ->]. apply mapM_Throw_inv in Hmap as ([k vs] & _ & Hg). simpl in Hg.
  destruct vs as [|r [|]]; try discriminate Hg; injection Hg as <-; by right.
Qed.

Lemma aggregate_Throw overview sections e :
  aggregate overview sections = Throw e → e = TypeError.
Proof.
  unfold aggregate. destruct (filterM countable sections) as [primary|e'] eqn:Hf; simpl.
  - unfold D3.rollups. intros ([k vs] & _ & Hg)%mapM_Throw_inv. simpl in Hg.
    unfold summarize in Hg. destruct vs as [|d0 rest]; [by injection Hg as <- |].
    destruct (d0 !! "Course"); [done | by injection Hg as <-].
  - intros [= ->]. apply filterM_Throw_inv in Hf as (d & _ & Hd).
    unfold countable in Hd. destruct (d !! "Section"); [done | by injection Hd as <-].
Qed.

Lemma collect_Throw w e :
  collect w = Throw e → e = FetchError ∨ e = TypeError ∨ e = DuplicateKey.
Proof.
  unfold collect.
  destruct (getCourses w) as [courses|e1] eqn:H1; simpl.
  2: { intros [= ->]. unfold getCourses in H1.
       destruct (catalog w) as [|[] cache]; try done. injection H1 as <-. by left. }
  destruct (getSections w courses term) as [sections|e2] eqn:H2; simpl.
  2: { intros [= ->]. apply getSections_Throw in H2. tauto. }
  destruct (getOverview w) as [overview|e3] eqn:H3; simpl.
  2: { intros [= ->]. apply getOverview_Throw in H3. tauto. }
  destruct (aggregate overview sections) as [rows|e4] eqn:H4; simpl; [done |].
  intros [= ->]. apply aggregate_Throw in H4. tauto.
Qed.

(** ** The two publishes *)

Lemma append_inv_head (p s t : string) : (p ++ s)%string = (p ++ t)%string → s = t.
Proof.
  induction p as [|c p IH]; [done |]. rewrite !append_cons. intros [= H]. by apply IH.
Qed.

Lemma append_inv_tail (s s' t : string) : (s ++ t)%string = (s' ++ t)%string → s = s'.
Proof.
  revert s'. induction s as [|c s IH]; intros [|c' s'] Heq.
  - done.
  - exfalso. apply (f_equal String.length) in Heq.
    rewrite append_nil_l, append_cons in Heq. simpl in Heq.
    rewrite length_append in Heq. lia.
  - exfalso. apply (f_equal String.length) in Heq.
    rewrite append_nil_l, append_cons in Heq. simpl in Heq.
    rewrite length_append in Heq. lia.
  - rewrite !append_cons in Heq. injection Heq as -> Heq. f_equal. by apply IH.
Qed.


(** ** What a column contributes *)

Lemma trimEnd_cons_keep (c : ascii) (t : string) :
  isWhiteSpace c = false → trimEnd (String c t) = String c (trimEnd t).
Proof. intros Hc. simpl. rewrite Hc. by destruct (trimEnd t). Qed.

Lemma trimEnd_append_keep (s : string) (c : ascii) (t : string) :
  isWhiteSpace c = false →
  trimEnd (s ++ String c t)%string = (s ++ String c (trimEnd t))%string.
Proof.
  intros Hc. induction s as [|a s IH].
  - rewrite !append_nil_l. by apply trimEnd_cons_keep.
  - rewrite !append_cons. simpl. rewrite IH. by destruct s.
Qed.

Lemma trimEnd_idempotent (v : string) : trimEnd (trimEnd v) = trimEnd v.
Proof.
  induction v as [|c t IH]; [done |]. simpl.
  destruct (trimEnd t) as [|c' t'] eqn:Ht.
  - destruct (isWhiteSpace c) eqn:Hc; [done |]. simpl. by rewrite Hc.
  - simpl in *. by rewrite IH.
Qed.

Lemma trimStart_trimEnd (v : string) : trimStart (trimEnd v) = trimEnd (trimStart v).
Proof.
  induction v as [|c t IH]; [done |]. simpl.
  destruct (isWhiteSpace c) eqn:Hc.
  - rewrite <- IH. destruct (trimEnd t) as [|c' t']; [done |]. simpl. by rewrite Hc.
  - simpl. destruct (trimEnd t) as [|c' t']; rewrite ?Hc; simpl; by rewrite Hc.
Qed.

Lemma trim_trimEnd (v : string) : trim (trimEnd v) = trim v.
Proof. unfold trim. by rewrite trimStart_trimEnd, trimEnd_idempotent. Qed.

Lemma trimStart_padding (pad s : string) :
  trimStart pad = EmptyString → trimStart (pad ++ s)%string = trimStart s.
Proof.
  induction pad as [|c pad IH]; [done |]. rewrite append_cons. simpl.
  destruct (isWhiteSpace c); [done | discriminate].
Qed.

Lemma no_colon_cons (c : ascii) (s : string) :
  includes (String c s) ":" = false → c ≠ ":"%char ∧ includes s ":" = false.
Proof.
  rewrite includes_unfold. intros [Hp Hs]%orb_false_iff. split; [| done].
  intros ->. by destruct s.
Qed.

Lemma split_colon_free (value : string) :
  includes value ":" = false → split ":" value = [value].
Proof.
  induction value as [|c value IH]; [done |].
  intros [Hc Hvalue]%no_colon_cons. simpl.
  destruct (Ascii.eqb_spec c ":"%char); [done |]. by rewrite IH.
Qed.

Lemma split_at_first_colon (key rest : string) :
  includes key ":" = false →
  split ":" (key ++ String ":" rest)%string = key :: split ":" rest.
Proof.
  induction key as [|c key IH].
  - intros _. rewrite append_nil_l. simpl. done.
  - intros [Hc Hkey]%no_colon_cons. rewrite append_cons. simpl.
    destruct (Ascii.eqb_spec c ":"%char); [done |]. by rewrite IH.
Qed.

Lemma trim_labelled (pad key rest : string) :
  trimStart pad = EmptyString → trimStart key = key →
  trim (pad ++ key ++ String ":" rest)%string = (key ++ String ":" (trimEnd rest))%string.
Proof.
  intros Hpad Hkey. unfold trim. rewrite trimStart_padding by done.
  assert (trimStart (key ++ String ":" rest)%string = (key ++ String ":" rest)%string) as ->.
  { destruct key as [|c key]; [done |]. rewrite append_cons. simpl in *.
    destruct (isWhiteSpace c); [| done].
    exfalso. apply (f_equal String.length) in Hkey.
    assert (Hlen : ∀ s, String.length (trimStart s) ≤ String.length s).
    { clear. induction s as [|a s IH]; simpl; [done |].
      destruct (isWhiteSpace a); simpl; lia. }
    specialize (Hlen key). simpl in Hkey. lia. }
  by apply trimEnd_append_keep.
Qed.

(** ** What an extracted record holds *)

Lemma extractColumn_Ok_inv (section d : SectionRecord) (text : string) :
  extractColumn section text = Ok d →
  ∃ value, d = set_property section (labelOf text) value.
Proof.
  unfold extractColumn, labelOf.
  destruct (split ":" (trim text)) as [|key [|value pieces]]; try done.
  intros [= <-]. by exists (trim value).
Qed.

Lemma extractColumns_Ok_inv (section d : SectionRecord) (row : list string) :
  extractColumns section row = Ok d →
  (∀ label, is_Some (section !! label) → is_Some (d !! label)) ∧
  (∀ label, (∀ text, text ∈ row → labelOf text ≠ label) →
            d !! label = section !! label).
Proof.
  revert section. induction row as [|text row IH]; intros section; simpl.
  - intros [= <-]. done.
  - destruct (extractColumn section text) as [section'|] eqn:Hcol; [| done]. simpl.
    intros Hrow. destruct (IH _ Hrow) as [Hkeep Hother].
    apply extractColumn_Ok_inv in Hcol as [value ->]. split.
    + intros label Hlabel. by apply Hkeep, set_property_is_Some.
    + intros label Hlabel. rewrite Hother.
      * apply set_property_other, Hlabel. left.
      * intros text' Hin. apply Hlabel. by right.
Qed.

Lemma extractRow_Ok_inv name time title (row : list string) (d : SectionRecord) :
  extractRow name time title row = Ok d →
  (is_Some (d !! "Time") ∧
   (is_Some name → is_Some (d !! "Course")) ∧
   (is_Some title → is_Some (d !! "title"))) ∧
  ((∀ text, text ∈ row → labelOf text ≠ "Course") → d !! "Course" = name) ∧
  ((∀ text, text ∈ row → labelOf text ≠ "Time") → d !! "Time" = Some time) ∧
  ((∀ text, text ∈ row → labelOf text ≠ "title") → d !! "title" = title).
Proof.
  unfold extractRow. intros [Hkeep Hother]%extractColumns_Ok_inv.
  split; [| split; [| split]].
  - split; [| split].
    + apply Hkeep. by rewrite init_record_lookup.
    + intros Hname. apply Hkeep. by rewrite init_record_lookup.
    + intros Htitle. apply Hkeep. by rewrite init_record_lookup.
  - intros Hrow. by rewrite (Hother _ Hrow), init_record_lookup.
  - intros Hrow. by rewrite (Hother _ Hrow), init_record_lookup.
  - intros Hrow. by rewrite (Hother _ Hrow), init_record_lookup.
Qed.

Lemma extractRows_Ok_inv name title now i page (ds : list SectionRecord) :
  extractRows name title now i page = Ok ds →
  ∀ d, d ∈ ds → ∃ time row, row ∈ page ∧ extractRow name time title row = Ok d.
Proof.
  revert i ds. induction page as [|row page IH]; intros i ds; simpl.
  - intros [= <-] d Hd. by apply elem_of_nil in Hd.
  - destruct (extractRow name (now i) title row) as [d0|] eqn:Hrow; [| done]. simpl.
    destruct (extractRows name title now (S i) page) as [ds0|] eqn:Hrows; [| done].
    simpl. intros [= <-] d [-> | Hd]%elem_of_cons.
    + exists (now i), row. split; [left | done].
    + destruct (IH _ _ Hrows d Hd) as (time & row' & Hin & Hrow').
      exists time, row'. split; [by right | done].
Qed.

Lemma getSections_Ok_inv w entries (sections : list SectionRecord) :
  getSections w (Some entries) term = Ok sections →
  ∀ d, d ∈ sections →
       ∃ name info time row,
         (name, info) ∈ entries ∧
         extractRow name time (info_title info) row = Ok d.
Proof.
  unfold getSections, Async.mapLimit, NUM_OPERATIONS. cbv iota beta.
  intros H. apply bind_Ok_inv in H as (lists & Hmap & [= <-]).
  apply mapM_Ok_Forall2 in Hmap.
  intros d (ds & Hds & Hd)%list_elem_of_In%in_concat.
  apply list_elem_of_In in Hds, Hd.
  apply list_elem_of_lookup in Hds as [j Hj].
  destruct (Forall2_lookup_r _ _ _ _ _ Hmap Hj) as ([name info] & Hentry & Hcall).
  unfold getCourseSections in Hcall.
  destruct (detail w _) as [|[] page]; try done.
  - destruct (extractRows_Ok_inv _ _ _ _ _ _ Hcall d Hd) as (time & row & _ & Hrow).
    exists name, info, time, row. split; [| done].
    apply list_elem_of_lookup. eauto.
  - injection Hcall as <-. by apply elem_of_nil in Hd.
Qed.

(** ** One row per course *)

Lemma rollups_keys {K A B} (eqb : K → K → bool) (values : list A)
    (reduce : list A → outcome B) (key : A → K) rows :
  D3.rollups eqb values reduce key = Ok rows →
  map fst rows = map fst (D3.groups eqb key values).
Proof.
  unfold D3.rollups. intros Hrows. apply mapM_Ok_Forall2 in Hrows.
  induction Hrows as [|[k vs] [k' b] gs rows Hred _ IH]; [done |].
  simpl in *. apply bind_Ok_inv in Hred as (r & _ & [= -> ->]). by rewrite IH.
Qed.

(** ** A key shared by two prior rows *)

Section GroupOfKey.
Context {K A : Type}.
Variable eqb : K → K → bool.
Variable key : A → K.
Variable k0 : K.
Hypothesis eqb_refl0 : eqb k0 k0 = true.
Hypothesis eqb_l : ∀ a, eqb a k0 = true → a = k0.
Hypothesis eqb_r : ∀ a, eqb k0 a = true → a = k0.

Lemma groupOf_insert (x : A) (gs : list (K * list A)) :
  groupOf eqb k0 (D3.group_insert eqb (key x) x gs)
  = if eqb (key x) k0 then groupOf eqb k0 gs ++ [x] else groupOf eqb k0 gs.
Proof.
  induction gs as [|[k vs] gs IH]; simpl.
  - by destruct (eqb (key x) k0).
  - destruct (eqb k (key x)) eqn:Hk; simpl.
    + destruct (eqb k k0) eqn:Hk0.
      * apply eqb_l in Hk0 as ->. apply eqb_r in Hk as ->. by rewrite eqb_refl0.
      * destruct (eqb (key x) k0) eqn:Hx; [| done].
        apply eqb_l in Hx. rewrite Hx in Hk. apply eqb_l in Hk. congruence.
    + destruct (eqb k k0) eqn:Hk0; [| done].
      apply eqb_l in Hk0 as ->.
      destruct (eqb (key x) k0) eqn:Hx; [| done].
      apply eqb_l in Hx. rewrite Hx, eqb_refl0 in Hk. done.
Qed.

Lemma groupOf_groups (values : list A) :
  groupOf eqb k0 (D3.groups eqb key values) = List.filter (λ v, eqb (key v) k0) values.
Proof.
  induction values as [|x values IH] using rev_ind; [done |].
  rewrite groups_snoc, groupOf_insert, IH, List.filter_app. simpl.
  destruct (eqb (key x) k0); [done | by rewrite app_nil_r].
Qed.

Lemma groupOf_elem (gs : list (K * list A)) :
  groupOf eqb k0 gs ≠ [] → ∃ k, (k, groupOf eqb k0 gs) ∈ gs.
Proof.
  induction gs as [|[k vs] gs IH]; simpl; [done |].
  destruct (eqb k k0).
  - intros _. exists k. left.
  - intros H. destruct (IH H) as [k' Hk']. exists k'. by right.
Qed.
End GroupOfKey.

Lemma filter_two {A} (P : A → bool) (l : list A) i j x y :
  i < j → l !! i = Some x → l !! j = Some y → P x = true → P y = true →
  2 ≤ length (List.filter P l).
Proof.
  intros Hij Hi Hj Hx Hy.
  rewrite <- (take_drop_middle l i x Hi), List.filter_app. simpl. rewrite Hx.
  assert (Hj' : drop (S i) l !! (j - S i) = Some y).
  { rewrite lookup_drop. rewrite <- Hj. f_equal. lia. }
  rewrite <- (take_drop_middle _ _ y Hj'), List.filter_app. simpl. rewrite Hy.
  rewrite !length_app. simpl. rewrite length_app. simpl. lia.
Qed.

Lemma index_duplicate {A} (values : list A) (key : A → value) i j x y text :
  i ≠ j → values !! i = Some x → values !! j = Some y →
  key x = VStr text → key y = VStr text →
  D3.index values key = Throw DuplicateKey.
Proof.
  intros Hij Hi Hj Hx Hy.
  assert (Hsame : ∀ a, SameValueZero a (VStr text) = true → a = VStr text)
    by (intros a; apply SameValueZero_VStr).
  assert (Hsame' : ∀ a, SameValueZero (VStr text) a = true → a = VStr text).
  { intros [] H; try discriminate H. simpl in H. by apply String.eqb_eq in H as ->. }
  assert (Hrefl : SameValueZero (VStr text) (VStr text) = true)
    by apply String.eqb_refl.
  pose proof (groupOf_groups SameValueZero key (VStr text) Hrefl Hsame Hsame' values)
    as Hgroup.
  assert (Htwo : 2 ≤ length (List.filter (λ v, SameValueZero (key v) (VStr text)) values)).
  { destruct (Nat.lt_total i j) as [Hlt | [-> | Hlt]]; [| done |].
    - eapply (filter_two _ values i j x y); try done.
      + simpl. by rewrite Hx.
      + simpl. by rewrite Hy.
    - eapply (filter_two _ values j i y x); try done.
      + simpl. by rewrite Hy.
      + simpl. by rewrite Hx. }
  rewrite <- Hgroup in Htwo.
  destruct (groupOf_elem SameValueZero (VStr text) (D3.groups SameValueZero key values))
    as [k Hk]; [intros Hnil; rewrite Hnil in Htwo; simpl in Htwo; lia |].
  unfold D3.index.
  match goal with |- mapM ?f ?gs = _ =>
    destruct (mapM_Throw f gs (k, groupOf SameValueZero (VStr text) gs) DuplicateKey Hk)
      as [e He] end.
  { simpl. destruct (groupOf _ _ _) as [|? [|]]; simpl in Htwo; try lia; done. }
  rewrite He. f_equal.
  apply mapM_Throw_inv in He as ([k' vs] & _ & Hg). simpl in Hg.
  destruct vs as [|? [|]]; simpl in Hg; congruence.
Qed.

(** ** The order in which the pool takes up the courses *)

Section PoolOrder.
Context {A : Type}.
Implicit Types (p : Async.pool A) (entries running todo started : list A).

Lemma replenish_order limit entries started running todo :
  entries = started ++ todo → running `sublist_of` started →
  taken_in_order entries (Async.replenish limit running todo).
Proof.
  revert started running. induction todo as [|elem todo IH]; intros started running -> Hsub.
  - simpl. by exists started.
  - simpl. destruct (length running <? limit).
    + apply (IH (started ++ [elem])); [by rewrite <- app_assoc |].
      by apply sublist_app.
    + by exists started.
Qed.

Lemma settle_order limit entries i err p :
  taken_in_order entries p → taken_in_order entries (Async.settle limit i err p).
Proof.
  intros (started & Hentries & Hsub). unfold Async.settle.
  destruct (Async.in_flight p !! i); [| by exists started].
  assert (Hdel : delete i (Async.in_flight p) `sublist_of` started).
  { etrans; [apply sublist_delete | done]. }
  destruct (err || Async.done p); [by exists started |].
  by apply (replenish_order _ _ started).
Qed.

Lemma run_order limit entries events p :
  taken_in_order entries p → taken_in_order entries (Async.run limit events p).
Proof.
  revert p. induction events as [|[i err] events IH]; intros p Hp; [done |].
  apply IH. by apply settle_order.
Qed.

Lemma replenish_saturated limit running todo :
  length running ≤ limit → saturated limit (Async.replenish limit running todo).
Proof.
  revert running. induction todo as [|elem todo IH]; intros running Hle; simpl.
  - done.
  - destruct (length running <? limit) eqn:E.
    + apply Nat.ltb_lt in E. apply IH. rewrite length_app. simpl. lia.
    + apply Nat.ltb_ge in E. split; simpl; [done | lia].
Qed.

Lemma settle_saturated limit i err p :
  saturated limit p → saturated limit (Async.settle limit i err p).
Proof.
  intros [Hle Hfull]. unfold Async.settle.
  destruct (Async.in_flight p !! i) eqn:Hi; [| done].
  assert (length (delete i (Async.in_flight p)) ≤ limit).
  { rewrite length_delete by eauto. lia. }
  destruct (err || Async.done p); [done |].
  by apply replenish_saturated.
Qed.

Lemma run_saturated limit events p :
  saturated limit p → saturated limit (Async.run limit events p).
Proof.
  revert p. induction events as [|[i err] events IH]; intros p Hp; [done |].
  apply IH. by apply settle_saturated.
Qed.

(** Once [done] is set nothing more is taken from the collection. *)
Lemma settle_done limit i err p :
  Async.done p = true →
  Async.done (Async.settle limit i err p) = true ∧
  Async.rest (Async.settle limit i err p) = Async.rest p ∧
  Async.in_flight (Async.settle limit i err p) `sublist_of` Async.in_flight p.
Proof.
  intros Hdone. unfold Async.settle.
  destruct (Async.in_flight p !! i); [| done].
  rewrite Hdone, orb_true_r. simpl. repeat split. apply sublist_delete.
Qed.

Lemma run_done limit events p :
  Async.done p = true →
  Async.rest (Async.run limit events p) = Async.rest p ∧
  Async.in_flight (Async.run limit events p) `sublist_of` Async.in_flight p.
Proof.
  revert p. induction events as [|[i err] events IH]; intros p Hdone; [done |].
  destruct (settle_done limit i err p Hdone) as (Hdone' & Hrest & Hsub).
  destruct (IH _ Hdone') as [Hrest' Hsub']. simpl. split.
  - by rewrite Hrest', Hrest.
  - by etrans.
Qed.

Lemma run_app limit events events' p :
  Async.run limit (events ++ events') p = Async.run limit events' (Async.run limit events p).
Proof. apply fold_left_app. Qed.
End PoolOrder.

(** ** The last column of a label *)

Lemma extractColumns_app (section : SectionRecord) (before after : list string) :
  extractColumns section (before ++ after)
  = section' ← extractColumns section before; extractColumns section' after.
Proof.
  revert section. induction before as [|text before IH]; intros section; simpl; [done |].
  destruct (extractColumn section text) as [section'|]; simpl; [apply IH | done].
Qed.

(** ** The records follow the schedule rows *)

Lemma extractRows_numbered w name info i page (ds : list SectionRecord) :
  extractRows name (info_title info) (clock w name) i page = Ok ds →
  Forall2 (λ d r, recordOf w r = Ok d) ds (numbered (name, info) i page).
Proof.
  revert i ds. induction page as [|row page IH]; intros i ds; simpl.
  - intros [= <-]. constructor.
  - intros H. apply bind_Ok_inv in H as (d & Hd & H).
    apply bind_Ok_inv in H as (ds' & Hds & [= <-]).
    constructor; [done | by apply IH].
Qed.

Lemma getCourseSections_numbered w entry (ds : list SectionRecord) :
  getCourseSections w (List.last (split "_" term) EmptyString) entry = Ok ds →
  Forall2 (λ d r, recordOf w r = Ok d) ds (numbered entry 0 (pageOf w entry)).
Proof.
  destruct entry as [name info]. unfold getCourseSections, pageOf, contentOf. simpl.
  destruct (detail w _) as [|[] page]; [done | | intros [= <-]; constructor].
  apply extractRows_numbered.
Qed.

Lemma mapLimit_numbered w entries (lists : list (list SectionRecord)) :
  Forall2 (λ entry ds,
             getCourseSections w (List.last (split "_" term) EmptyString) entry = Ok ds)
          entries lists →
  Forall2 (λ d r, recordOf w r = Ok d) (concat lists)
          (concat (map (λ entry, numbered entry 0 (pageOf w entry)) entries)).
Proof.
  induction 1 as [|entry ds entries lists Hcall _ IH]; simpl; [constructor |].
  apply Forall2_app; [by apply getCourseSections_numbered | done].
Qed.

(** ** The order of the overview rows *)

Lemma firstMentions_elem (keys : list (option string)) k :
  k ∈ firstMentions keys ↔ k ∈ keys.
Proof.
  induction keys as [|k0 keys IH]; simpl; [done |].
  rewrite !elem_of_cons, list_elem_of_filter, IH.
  destruct (decide (k = k0)) as [-> | Hne]; [by split; auto |].
  split; [intros [? | [_ ?]] | intros [? | ?]]; auto.
Qed.

Lemma firstMentions_snoc (keys : list (option string)) k :
  firstMentions (keys ++ [k])
  = if decide (k ∈ keys) then firstMentions keys else firstMentions keys ++ [k].
Proof.
  induction keys as [|k0 keys IH].
  - rewrite decide_False; [done | apply not_elem_of_nil].
  - cbn [app firstMentions]. rewrite IH. destruct (decide (k = k0)) as [-> | Hne].
    + destruct (decide (k0 ∈ k0 :: keys)) as [_ | Hout]; [| destruct Hout; left].
      destruct (decide (k0 ∈ keys)); [done |].
      rewrite filter_app, filter_cons_False, filter_nil, app_nil_r; [done | by intros H].
    + destruct (decide (k ∈ keys)) as [Hin | Hout].
      * destruct (decide (k ∈ k0 :: keys)) as [_ | Hout]; [done | destruct Hout; by right].
      * destruct (decide (k ∈ k0 :: keys)) as [[|]%elem_of_cons | _]; [done | done |].
        by rewrite filter_app, filter_cons_True, filter_nil.
Qed.

Lemma groups_firstMentions {A} (key : A → option string) (values : list A) :
  map fst (D3.groups key_eqb key values) = firstMentions (map key values).
Proof.
  induction values as [|x values IH] using rev_ind; [done |].
  rewrite groups_snoc, (group_insert_keys key_eqb key_eqb_eq), IH.
  rewrite map_app. change (map key [x]) with [key x]. rewrite firstMentions_snoc.
  destruct (decide (key x ∈ map key values)) as [Hin | Hout].
  - rewrite decide_True; [done | by apply firstMentions_elem].
  - rewrite decide_False; [done | by rewrite firstMentions_elem].
Qed.

(** ** The undergraduate flag *)

Lemma same_eq (x y : JsNumber.number) : JsNumber.same x y = true → x = y.
Proof.
  destruct x as [a|a| |a m e], y as [b|b| |b m' e']; simpl; try discriminate.
  - by intros ->%Bool.eqb_prop.
  - by intros ->%Bool.eqb_prop.
  - done.
  - intros [[->%Bool.eqb_prop ->%Pos.eqb_eq]%andb_true_iff ->%Z.eqb_eq]%andb_true_iff.
    done.
Qed.

Lemma three_digits_classified (a b c : ascii) :
  all_digits (String a (String b (String c EmptyString))) = true →
  classified a b c = true.
Proof.
  simpl. rewrite andb_true_r. intros [Ha [Hb Hc]%andb_true_iff]%andb_true_iff.
  apply is_digit_cases in Ha, Hb, Hc.
  set (ds := ["0"; "1"; "2"; "3"; "4"; "5"; "6"; "7"; "8"; "9"]%char) in *.
  assert (Hall : forallb (λ a, forallb (λ b, forallb (classified a b) ds) ds) ds = true)
    by (vm_compute; reflexivity).
  rewrite forallb_forall in Hall. apply list_elem_of_In, Hall in Ha.
  rewrite forallb_forall in Ha. apply list_elem_of_In, Ha in Hb.
  rewrite forallb_forall in Hb. by apply list_elem_of_In, Hb in Hc.
Qed.

(** ** Where the run writes *)

Lemma handler_log w command :
  command ∈ (handler w).1 →
  (∃ primary, command = overviewCommand primary) ∨
  (∃ stub, command = stubCommand (publish_clock w) stub).
Proof.
  unfold handler. destruct (collect w) as [[sections primary]|e]; simpl.
  - destruct (send w (overviewCommand (map snd primary))) as [[]|e]; simpl.
    + intros [-> | [-> | []%elem_of_nil]%elem_of_cons]%elem_of_cons; [left | right]; eauto.
    + intros [-> | []%elem_of_nil]%elem_of_cons. left. eauto.
  - by intros ?%elem_of_nil.
Qed.

(** ** Counts that are missing *)

Lemma NaN_falsy (x : JsNumber.number) : JsNumber.isNaN x = true → JsNumber.truthy x = false.
Proof. by destruct x. Qed.

Lemma sum_skips_NaN {A} (values : list A) (f : A → JsNumber.number) :
  D3.sum (filter (λ d, JsNumber.isNaN (f d) = false) values) f = D3.sum values f.
Proof.
  unfold D3.sum. generalize JsNumber.zero.
  induction values as [|d values IH]; intros acc; [done |].
  destruct (JsNumber.isNaN (f d)) eqn:Hnan.
  - rewrite filter_cons_False by (by rewrite Hnan). simpl.
    by rewrite (NaN_falsy _ Hnan).
  - rewrite filter_cons_True by done. simpl. apply IH.
Qed.

(** ** Rows that end the run *)

Lemma colon_free_cons (c : ascii) (s : string) :
  c ≠ ":"%char → includes s ":" = false → includes (String c s) ":" = false.
Proof.
  intros Hc Hs. rewrite includes_unfold, Hs, orb_false_r.
  change (String.prefix ":" (String c s))
    with (if ascii_dec ":"%char c then String.prefix EmptyString s else false).
  destruct (ascii_dec ":" c) as [<- | _]; done.
Qed.

Lemma trimStart_colon_free (text : string) :
  includes text ":" = false → includes (trimStart text) ":" = false.
Proof.
  induction text as [|c text IH]; [done |]. intros Hfree. simpl.
  destruct (isWhiteSpace c); [| done].
  apply IH. by apply no_colon_cons in Hfree as [_ ?].
Qed.

Lemma trimEnd_colon_free (text : string) :
  includes text ":" = false → includes (trimEnd text) ":" = false.
Proof.
  induction text as [|c text IH]; [done |].
  intros [Hc Hfree]%no_colon_cons. specialize (IH Hfree). simpl.
  destruct (trimEnd text) as [|c' t']; [| by apply colon_free_cons].
  destruct (isWhiteSpace c); [done |]. by apply colon_free_cons.
Qed.

(** A column without a colon: [value] is [undefined] and [value.trim()]
    throws. *)
Lemma extractColumn_colonless (section : SectionRecord) (text : string) :
  includes text ":" = false → extractColumn section text = Throw TypeError.
Proof.
  intros Hfree. unfold extractColumn, trim.
  by rewrite split_colon_free by (by apply trimEnd_colon_free, trimStart_colon_free).
Qed.

Lemma extractColumns_colonless (section : SectionRecord) (row : list string) text :
  text ∈ row → includes text ":" = false → extractColumns section row = Throw TypeError.
Proof.
  intros Hin Hfree. revert section. induction row as [|text' row IH]; intros section.
  - by apply elem_of_nil in Hin.
  - simpl. apply elem_of_cons in Hin as [<- | Hin].
    + by rewrite extractColumn_colonless.
    + destruct (extractColumn section text') as [section'|e] eqn:Hcol; simpl; [by apply IH |].
      unfold extractColumn in Hcol.
      destruct (split ":" (trim text')) as [|? [|]]; congruence.
Qed.

Lemma extractRows_colonless name title now i (page : list (list string)) row text :
  row ∈ page → text ∈ row → includes text ":" = false →
  extractRows name title now i page = Throw TypeError.
Proof.
  intros Hrow Htext Hfree. revert i. induction page as [|row' page IH]; intros i.
  - by apply elem_of_nil in Hrow.
  - simpl. destruct (extractRow name (now i) title row') as [d|e] eqn:Hd; simpl.
    + apply elem_of_cons in Hrow as [<- | Hrow].
      * unfold extractRow in Hd. by rewrite (extractColumns_colonless _ _ text) in Hd.
      * by rewrite (IH Hrow).
    + f_equal. by apply extractColumns_Throw in Hd.
Qed.

Lemma filterM_Throw {A} (f : A → outcome bool) (xs : list A) x e :
  x ∈ xs → f x = Throw e → ∃ e', filterM f xs = Throw e'.
Proof.
  induction xs as [|x0 xs IH]; intros Hin Hx; [by apply elem_of_nil in Hin |].
  simpl. apply elem_of_cons in Hin as [<- | Hin].
  - rewrite Hx. simpl. eauto.
  - destruct (f x0); simpl; [| eauto].
    destruct (IH Hin Hx) as [e' ->]. simpl. eauto.
Qed.

Lemma handler_aborts w e : collect w = Throw e → handler w = ([], Throw e).
Proof. unfold handler. by intros ->. Qed.

(** A call of [getCourseSections] that throws ends the run before any
    publish. *)
Lemma getCourseSections_aborts w cache entry e :
  catalog w = Response true cache →
  entry ∈ entriesOf cache →
  getCourseSections w (List.last (split "_" term) EmptyString) entry = Throw e →
  ∃ e', handler w = ([], Throw e').
Proof.
  intros Hcatalog Hin Hcall.
  destruct (mapM_Throw (getCourseSections w (List.last (split "_" term) EmptyString))
              (entriesOf cache) entry e Hin Hcall) as [e' He'].
  exists e'. apply handler_aborts. unfold collect, getCourses.
  rewrite Hcatalog, bind_Ok. fold (entriesOf cache).
  unfold getSections, Async.mapLimit, NUM_OPERATIONS. by rewrite He'.
Qed.

(** A fetched record on which the filter or the reducer throws ends the
    run before any publish. *)
Lemma aggregate_aborts w cache sections :
  catalog w = Response true cache →
  getSections w (Some (entriesOf cache)) term = Ok sections →
  (∀ overview, ∃ e, aggregate overview sections = Throw e) →
  ∃ e, handler w = ([], Throw e).
Proof.
  intros Hcatalog Hsections Hagg.
  assert (Hcollect : ∃ e, collect w = Throw e).
  { unfold collect, getCourses. rewrite Hcatalog, bind_Ok. fold (entriesOf cache).
    rewrite Hsections, bind_Ok.
    destruct (getOverview w) as [overview|e]; simpl; [| eauto].
    destruct (Hagg overview) as [e ->]. simpl. eauto. }
  destruct Hcollect as [e He]. exists e. by apply handler_aborts.
Qed.

Lemma sectionless_aggregate overview (sections : list SectionRecord) d :
  d ∈ sections → d !! "Section" = None → ∃ e, aggregate overview sections = Throw e.
Proof.
  intros Hd Hsection. unfold aggregate.
  destruct (filterM_Throw countable sections d TypeError Hd) as [e ->].
  - unfold countable. by rewrite Hsection.
  - simpl. eauto.
Qed.

Lemma courseless_aggregate overview (sections : list SectionRecord) d :
  d ∈ sections → countable d = Ok true → d !! "Course" = None →
  ∃ e, aggregate overview sections = Throw e.
Proof.
  intros Hd Hcountable Hcourse. unfold aggregate.
  destruct (filterM countable sections) as [primary|e] eqn:Hfilter; simpl; [| eauto].
  apply filterM_Ok in Hfilter as [-> _].
  set (primary := filter (λ x, countable x = Ok true) sections).
  destruct (groups_spec key_eqb (λ d : SectionRecord, d !! "Course") key_eqb_eq primary)
    as (_ & Hcover & Hmem).
  assert (Hkey : None ∈ map fst (D3.groups key_eqb (λ d : SectionRecord, d !! "Course") primary)).
  { rewrite <- Hcourse. apply (Hcover d). by apply list_elem_of_filter. }
  apply list_elem_of_In, in_map_iff in Hkey as ([k vs] & Hk & Hg). simpl in Hk. subst k.
  apply list_elem_of_In in Hg. destruct (Hmem _ _ Hg) as [Hvs Hne].
  unfold D3.rollups.
  eapply (mapM_Throw _ _ (None, vs) TypeError); [done |]. simpl.
  destruct vs as [|d0 rest]; [done |].
  assert (Hd0 : d0 ∈ d0 :: rest) by left.
  rewrite Hvs in Hd0. apply list_elem_of_filter in Hd0 as [Hd0 _]. simpl in Hd0.
  unfold summarize. by rewrite Hd0.
Qed.

(** ** The run on well-formed pages *)

Lemma entriesOf_named (cache : list CourseRow) entry :
  (∀ r, r ∈ cache → is_Some (course r)) → entry ∈ entriesOf cache → is_Some (fst entry).
Proof.
  intros Hnamed Hin.
  assert (Hkey : fst entry ∈ map fst (entriesOf cache)).
  { apply list_elem_of_In, in_map_iff. exists entry. split; [done | by apply list_elem_of_In]. }
  unfold entriesOf in Hkey. rewrite new_Map_keys, map_map in Hkey.
  apply list_elem_of_In, in_map_iff in Hkey as (r & <- & Hr).
  apply Hnamed. by apply list_elem_of_In.
Qed.

Lemma stubRow_mirrors (d : SectionRecord) : mirrors d (stubRow d).
Proof. unfold mirrors, stubRow. simpl. repeat split. apply waitList_normalized. Qed.

Lemma stub_mirrors (sections : list SectionRecord) :
  Forall2 mirrors sections (map stubRow sections).
Proof. induction sections; constructor; [apply stubRow_mirrors | done]. Qed.

Lemma labelled_run_publishes w cache :
  catalog w = Response true cache →
  (∀ r, r ∈ cache → is_Some (course r)) →
  (∀ content, detail w content ≠ Rejected) →
  labelledPages w →
  (∃ overview, getOverview w = Ok overview) →
  (∀ key, s3_accepts w key = true) →
  ∃ sections rows,
    collect w = Ok (sections, rows) ∧
    handler w = ([overviewCommand (map snd rows);
                  stubCommand (publish_clock w) (map stubRow sections)], Ok ()).
Proof.
  intros Hcatalog Hnamed Hresolved Hlabelled [overview Hoverview] Hs3.
  destruct (getSections_labelled w Hresolved Hlabelled (entriesOf cache))
    as (sections & Hsections & Hfields).
  { intros entry. by apply entriesOf_named. }
  destruct (aggregate_total overview sections Hfields) as [rows Hrows].
  assert (Hcollect : collect w = Ok (sections, rows)).
  { unfold collect, getCourses. rewrite Hcatalog, bind_Ok. fold (entriesOf cache).
    rewrite Hsections, bind_Ok, Hoverview, bind_Ok. by rewrite Hrows. }
  exists sections, rows. split; [done |].
  unfold handler, send. by rewrite Hcollect, !Hs3.
Qed.

(** ** Where the fetched records come from *)

Lemma collect_catalog w cache sections rows :
  catalog w = Response true cache →
  collect w = Ok (sections, rows) →
  ∃ overview,
    getSections w (Some (entriesOf cache)) term = Ok sections ∧
    getOverview w = Ok overview ∧
    aggregate overview sections = Ok rows.
Proof.
  intros Hcatalog Hcollect.
  destruct (collect_inv _ _ _ Hcollect) as (courses & overview & Hcourses & Hsections & ? & ?).
  unfold getCourses in Hcourses. rewrite Hcatalog in Hcourses. injection Hcourses as <-.
  by exists overview.
Qed.

Lemma fetched_follow_schedule w cache (sections : list SectionRecord) :
  getSections w (Some (entriesOf cache)) term = Ok sections →
  Forall2 (λ d r, recordOf w r = Ok d) sections (scheduleRows w cache).
Proof.
  unfold getSections, Async.mapLimit, NUM_OPERATIONS. cbv iota beta. intros Hsections.
  apply bind_Ok_inv in Hsections as (lists & Hmap & [= <-]).
  apply mapM_Ok_Forall2 in Hmap. by apply mapLimit_numbered.
Qed.

Lemma numbered_elem entry i page r :
  r ∈ numbered entry i page → of_entry r = entry ∧ columns r ∈ page.
Proof.
  revert i. induction page as [|row page IH]; intros i; simpl.
  - by intros ?%elem_of_nil.
  - intros [-> | Hr]%elem_of_cons; [split; [done | left] |].
    destruct (IH _ Hr) as [? ?]. split; [done | by right].
Qed.

Lemma scheduleRows_elem w cache r :
  r ∈ scheduleRows w cache →
  of_entry r ∈ entriesOf cache ∧ columns r ∈ pageOf w (of_entry r).
Proof.
  unfold scheduleRows. intros (rs & Hrs & Hr)%list_elem_of_In%in_concat.
  apply in_map_iff in Hrs as (entry & <- & Hentry).
  apply list_elem_of_In in Hr, Hentry.
  destruct (numbered_elem _ _ _ _ Hr) as [-> Hcolumns]. done.
Qed.

(** The records of a run all stem from pages other than one that did not
    respond [ok]; such a record names the course of that page only
    through a column labelled Course. *)
Lemma skipped_provenance w cache name info body (sections : list SectionRecord) d :
  (name, info) ∈ entriesOf cache →
  detail w (contentOf name info) = Response false body →
  getSections w (Some (entriesOf cache)) term = Ok sections →
  d ∈ sections →
  ∃ r, r ∈ scheduleRows w cache ∧ fst (of_entry r) ≠ name ∧ recordOf w r = Ok d ∧
       (d !! "Course" = name → ∃ text, text ∈ columns r ∧ labelOf text = "Course").
Proof.
  intros Hentry Hdetail Hsections Hd.
  pose proof (fetched_follow_schedule w cache sections Hsections) as Hall.
  apply list_elem_of_lookup in Hd as [i Hi].
  destruct (Forall2_lookup_l _ _ _ _ _ Hall Hi) as (r & Hr & Hrecord).
  assert (Hin : r ∈ scheduleRows w cache) by (apply list_elem_of_lookup; eauto).
  destruct (scheduleRows_elem w cache r Hin) as [Hr_entry Hr_page].
  assert (Hother : fst (of_entry r) ≠ name).
  { intros Hname. destruct (of_entry r) as [name' info'] eqn:Hr_eq. simpl in Hname. subst name'.
    assert (info' = info) as ->.
    { apply (NoDup_keys_unique (entriesOf cache) name); [apply new_Map_NoDup | done | done]. }
    unfold pageOf in Hr_page. simpl in Hr_page. rewrite Hdetail in Hr_page.
    by apply elem_of_nil in Hr_page. }
  exists r. split; [done |]. split; [done |]. split; [done |].
  intros Hcourse.
  destruct (decide (Exists (λ text, labelOf text = "Course") (columns r))) as [Hex | Hnone].
  - apply Exists_exists in Hex as (text & Htext & Hlabel). by exists text.
  - exfalso. apply Hother. rewrite <- Hcourse.
    unfold recordOf in Hrecord. apply extractRow_Ok_inv in Hrecord as (_ & Hname & _).
    symmetry. apply Hname. intros text Htext Hlabel. apply Hnone, Exists_exists. eauto.
Qed.

(** Every key of the rollup is the Course of a countable fetched record. *)
Lemma rollup_key_record overview (sections : list SectionRecord) rows key :
  aggregate overview sections = Ok rows →
  key ∈ map fst rows →
  ∃ d, d ∈ sections ∧ d !! "Course" = key ∧ countable d = Ok true.
Proof.
  intros Hagg ([key' s] & <- & Hin)%list_elem_of_In%in_map_iff. simpl.
  apply list_elem_of_In in Hin.
  destruct (aggregate_inv _ _ _ _ _ Hagg Hin) as (course & -> & Hne & _).
  destruct (countableSections course sections) as [|d ds] eqn:Hcs; [done |].
  assert (Hd : d ∈ countableSections course sections) by (rewrite Hcs; left).
  apply list_elem_of_filter in Hd as [[Hcourse Hcountable] Hd]. by exists d.
Qed.

Lemma published_intro w primary (sections : list SectionRecord) now :
  handler w = ([overviewCommand primary; stubCommand now (map stubRow sections)], Ok ()) →
  published w primary sections.
Proof.
  intros Hrun. exists (overviewCommand primary), (stubCommand now (map stubRow sections)),
                 (map stubRow sections).
  split; [done |]. split; [done |]. split; [done |]. apply stub_mirrors.
Qed.

(** ** What a labelled column does *)

Lemma extractColumn_labelled (section : SectionRecord) (pad key value : string) :
  trimStart pad = EmptyString →
  trimStart key = key →
  includes key ":" = false →
  includes value ":" = false →
  extractColumn section (pad ++ key ++ String ":" value)
  = Ok (set_property section key (trim value)) ∧
  ∀ rest,
    extractColumn section (pad ++ key ++ String ":" (value ++ String ":" rest))
    = Ok (set_property section key (trim value)).
Proof.
  intros Hpad Hstart Hkey Hvalue. unfold extractColumn. split.
  - rewrite trim_labelled, split_at_first_colon by done.
    rewrite split_colon_free.
    + by rewrite trim_trimEnd.
    + destruct (includes (trimEnd value) ":") eqn:E; [| done].
      apply includes_contains in E as (before & after & E).
      assert (Hin : contains value ":").
      { clear -E. revert before E. induction value as [|c t IH]; intros before E.
        - by destruct before.
        - simpl in E. destruct (trimEnd t) as [|c' t'] eqn:Ht.
          + destruct (isWhiteSpace c).
            * by destruct before.
            * destruct before as [|b [|]]; try discriminate E.
              injection E as -> _. by exists EmptyString, t.
          + destruct before as [|b before].
            * injection E as -> _. by exists EmptyString, t.
            * injection E as -> E. destruct (IH before E) as (b' & a' & ->).
              by exists (String b b'), a'. }
      apply includes_contains in Hin. congruence.
  - intros rest. rewrite trim_labelled by done.
    rewrite split_at_first_colon by done.
    rewrite trimEnd_append_keep by done.
    by rewrite split_at_first_colon.
Qed.

(** ** The fields of a fetched record *)

Lemma entriesOf_elem (cache : list CourseRow) name info :
  (name, info) ∈ entriesOf cache →
  ∃ r, r ∈ cache ∧ course r = name ∧ suffix r = info_suffix info ∧ title r = info_title info.
Proof.
  unfold entriesOf. intros Hin%new_Map_elem.
  apply list_elem_of_In, in_map_iff in Hin as (r & [= <- <-] & Hr).
  exists r. split; [by apply list_elem_of_In | done].
Qed.

Lemma fetched_record_fields w cache (sections : list SectionRecord) d :
  getSections w (Some (entriesOf cache)) term = Ok sections →
  d ∈ sections →
  is_Some (d !! "Time") ∧
  ((∀ c, c ∈ cache → is_Some (course c)) → is_Some (d !! "Course")) ∧
  ((∀ c, c ∈ cache → is_Some (title c)) → is_Some (d !! "title")).
Proof.
  intros Hsections Hd.
  destruct (getSections_Ok_inv _ _ _ Hsections d Hd)
    as (name & info & time & row & Hentry & Hrow).
  apply entriesOf_elem in Hentry as (r & Hr & Hname & _ & Htitle_eq).
  apply extractRow_Ok_inv in Hrow as [(? & Hcourse & Htitle) _].
  split; [done |]. split; intros Hall.
  - apply Hcourse. rewrite <- Hname. by apply Hall.
  - apply Htitle. rewrite <- Htitle_eq. by apply Hall.
Qed.

(** ** What a run that ends well has published *)

Lemma handler_Ok_published w log (sections : list SectionRecord) rows :
  handler w = (log, Ok ()) →
  collect w = Ok (sections, rows) →
  ∃ put_overview put_stub stub,
    log = [put_overview; put_stub] ∧
    body put_overview = OverviewCsv (map snd rows) ∧
    body put_stub = StubCsv stub ∧
    Forall2 mirrors sections stub.
Proof.
  intros Hrun Hcollect.
  destruct (handler_Ok_inv _ _ Hrun) as (sections' & rows' & Hcollect' & ->).
  rewrite Hcollect in Hcollect'. injection Hcollect' as <- <-.
  exists (overviewCommand (map snd rows)),
         (stubCommand (publish_clock w) (map stubRow sections)), (map stubRow sections).
  split; [done |]. split; [done |]. split; [done |]. apply stub_mirrors.
Qed.

(** Every summary of the rollup belongs to a course that has a countable
    fetched record. *)
Lemma rollup_row_course overview (sections : list SectionRecord) rows key s :
  aggregate overview sections = Ok rows →
  (key, s) ∈ rows →
  ∃ course d,
    key = Some course ∧
    d ∈ sections ∧ d !! "Course" = Some course ∧ countable d = Ok true ∧
    course = (Summary.department s ++ slice course (-3) None)%string ∧
    Summary.number s = JsNumber.StringToNumber (slice course (-3) None).
Proof.
  intros Hagg Hin.
  destruct (aggregate_inv _ _ _ _ _ Hagg Hin) as (course & -> & _ & Hsum).
  destruct (summarize_inv _ _ _ Hsum) as (d0 & rest & course' & Hv & Hc & ->).
  assert (Hd0 : d0 ∈ countableSections course sections) by (rewrite Hv; left).
  apply list_elem_of_filter in Hd0 as [[Hcourse Hcountable] Hd0].
  assert (course' = course) as -> by congruence.
  exists course, d0. simpl. repeat split; try done.
  by destruct (slice_last3 course).
Qed.

(** * The claims *)

(** ** Capacity *)

(** C1, amended: in every aggregated summary [available] is the sum of the
    coerced Open Seats over the countable sections of the course, and
    [capacity] is [available] unless the course has a hint that exceeds it,
    in which case it is the hint.  Hence [capacity >= available] whenever
    [available] is a number; and when the prior overview is unavailable
    [capacity] is [available]. *)
Theorem capacity_rule w sections rows key s :
  collect w = Ok (sections, rows) →
  (key, s) ∈ rows →
  ∃ course overview,
    key = Some course ∧
    getOverview w = Ok overview ∧
    Summary.available s = D3.sum (countableSections course sections) openSeats ∧
    Summary.capacity s =
      match hint overview course with
      | Some potential =>
          if JsNumber.gt potential (Summary.available s) then potential
          else Summary.available s
      | None => Summary.available s
      end ∧
    (JsNumber.isNaN (Summary.available s) = false →
     JsNumber.ge (Summary.capacity s) (Summary.available s) = true) ∧
    (∀ cache, prior w = Response false cache →
              Summary.capacity s = Summary.available s).
Proof.
  intros Hcol Hin.
  destruct (collect_inv _ _ _ Hcol) as (courses & overview & _ & _ & Hov & Hagg).
  destruct (aggregate_inv _ _ _ _ _ Hagg Hin) as (course & -> & _ & Hsum).
  destruct (summarize_inv _ _ _ Hsum) as (d0 & rest & course' & Hv & Hc & ->).
  assert (course' = course) as ->.
  { assert (Hd0 : d0 ∈ countableSections course sections) by (rewrite Hv; left).
    apply list_elem_of_filter in Hd0 as [[Hk _] _]. congruence. }
  exists course, overview. simpl. rewrite capacityOf_hint.
  set (available := D3.sum (countableSections course sections) openSeats).
  repeat split; try done.
  - intros Hnum. destruct (hint overview course) as [potential|].
    + destruct (JsNumber.gt potential available) eqn:Hgt.
      * by apply gt_ge.
      * by apply ge_refl.
    + by apply ge_refl.
  - intros cache Hprior.
    by rewrite (getOverview_unavailable _ _ _ Hprior Hov).
Qed.

Lemma capacity_rule_witness :
  ∃ course overview,
    Some "EECS485" = Some course ∧
    getOverview Examples.plain_world = Ok overview ∧
    Summary.available Examples.plain_summary =
      D3.sum (countableSections course Examples.plain_sections) openSeats ∧
    Summary.capacity Examples.plain_summary =
      match hint overview course with
      | Some potential =>
          if JsNumber.gt potential (Summary.available Examples.plain_summary)
          then potential else Summary.available Examples.plain_summary
      | None => Summary.available Examples.plain_summary
      end ∧
    (JsNumber.isNaN (Summary.available Examples.plain_summary) = false →
     JsNumber.ge (Summary.capacity Examples.plain_summary)
                 (Summary.available Examples.plain_summary) = true) ∧
    (∀ cache, prior Examples.plain_world = Response false cache →
              Summary.capacity Examples.plain_summary
              = Summary.available Examples.plain_summary).
Proof.
  apply (capacity_rule Examples.plain_world Examples.plain_sections Examples.plain_rows).
  - reflexivity.
  - left.
Defined.

(** C1 as stated fails where the Open Seats of a course add +Infinity to
    -Infinity: [available] and [capacity] are both NaN, and NaN >= NaN is
    false. *)
Lemma capacity_ge_available_counterexample :
  (∃ sections,
     collect Examples.infinite_world
     = Ok (sections, [(Some "EECS485", Examples.infinite_summary)])) ∧
  JsNumber.ge (Summary.capacity Examples.infinite_summary)
              (Summary.available Examples.infinite_summary) = false.
Proof.
  split; [| reflexivity].
  exists (Examples.fetched_in Examples.infinite_world). reflexivity.
Qed.

(** ** The available share *)

(** C4, amended: in every aggregated summary [percent_available] is the
    quotient [available / capacity], whatever the capacity.  No policy is
    applied when [capacity] is 0: the quotient is then NaN if [available] is
    0 as well, and an infinity if [available] is negative. *)
Theorem percent_available_quotient w sections rows key s :
  collect w = Ok (sections, rows) →
  (key, s) ∈ rows →
  Summary.percent_available s
  = JsNumber.div (Summary.available s) (Summary.capacity s) ∧
  ∀ sign, Summary.capacity s = S754_zero sign →
    (JsNumber.truthy (Summary.available s) = false ∧
     Summary.percent_available s = JsNumber.NaN) ∨
    (JsNumber.lt (Summary.available s) JsNumber.zero = true ∧
     Summary.percent_available s = S754_infinity (negb sign)).
Proof.
  intros Hcol Hin.
  destruct (collect_inv _ _ _ Hcol) as (courses & overview & _ & _ & _ & Hagg).
  destruct (aggregate_inv _ _ _ _ _ Hagg Hin) as (course & -> & _ & Hsum).
  destruct (summarize_inv _ _ _ Hsum) as (d0 & rest & course' & _ & _ & ->).
  simpl. split; [done |]. rewrite capacityOf_hint.
  set (available := D3.sum (countableSections course sections) openSeats).
  intros sign Hzero.
  assert (Hsame : available = S754_zero sign →
                  JsNumber.truthy available = false ∧
                  JsNumber.div available (S754_zero sign) = JsNumber.NaN).
  { intros ->. by destruct sign. }
  destruct (hint overview course') as [potential|]; [| rewrite Hzero; auto].
  destruct (JsNumber.gt potential available) eqn:Hgt; [| rewrite Hzero; auto].
  subst potential. right. by apply lt_zero_div_zero.
Qed.

Lemma percent_available_quotient_witness :
  Summary.percent_available Examples.full_summary
  = JsNumber.div (Summary.available Examples.full_summary)
                 (Summary.capacity Examples.full_summary) ∧
  ∀ sign, Summary.capacity Examples.full_summary = S754_zero sign →
    (JsNumber.truthy (Summary.available Examples.full_summary) = false ∧
     Summary.percent_available Examples.full_summary = JsNumber.NaN) ∨
    (JsNumber.lt (Summary.available Examples.full_summary) JsNumber.zero = true ∧
     Summary.percent_available Examples.full_summary = S754_infinity (negb sign)).
Proof.
  apply (percent_available_quotient Examples.full_world
           (Examples.fetched_in Examples.full_world)
           [(Some "EECS485", Examples.full_summary)] (Some "EECS485")).
  - reflexivity.
  - left.
Defined.

(** C4 as stated fails: a summary with [capacity = 0] follows no single
    policy value.  Without open seats and without a hint the share is NaN;
    with -5 open seats and a prior capacity of 0 it is -Infinity. *)
Lemma percent_available_policy_counterexample :
  ¬ ∃ policy : JsNumber.number,
      ∀ w sections rows key s,
        collect w = Ok (sections, rows) →
        (key, s) ∈ rows →
        Summary.capacity s = JsNumber.zero →
        Summary.percent_available s = policy.
Proof.
  intros [policy Hpolicy].
  assert (Hfull : collect Examples.full_world
                  = Ok (Examples.fetched_in Examples.full_world,
                        [(Some "EECS485", Examples.full_summary)]))
    by reflexivity.
  assert (Hover : collect Examples.overbooked_world
                  = Ok (Examples.fetched_in Examples.overbooked_world,
                        [(Some "EECS485", Examples.overbooked_summary)]))
    by reflexivity.
  apply Hpolicy with (key := Some "EECS485") (s := Examples.full_summary)
    in Hfull; [| left | reflexivity].
  apply Hpolicy with (key := Some "EECS485") (s := Examples.overbooked_summary)
    in Hover; [| left | reflexivity].
  rewrite <- Hfull in Hover. discriminate Hover.
Qed.

(** ** Waitlist *)

(** C5, amended: the waitlist quantity published for a section record is 0
    for the sentinel "-" and the numeric coercion of the Wait List value
    otherwise (NaN when the field is missing), in the Wait List column of
    the stub table and, added up by [sum] over the countable sections of the
    course only, in the waitlist of the summary.  For the sentinel it is 0
    and for a string of decimal digits it is the number nearest to the
    non-negative integer that the digits denote. *)
Theorem waitlist_normalization w sections rows :
  collect w = Ok (sections, rows) →
  normalized (Some "-") = JsNumber.zero ∧
  (∀ d, d ∈ sections →
        Stub.WaitList (stubRow d) = normalized (d !! "Wait List")) ∧
  (∀ key s, (key, s) ∈ rows →
     ∃ course,
       key = Some course ∧
       Summary.waitlist s
       = D3.sum (countableSections course sections)
                (λ d, normalized (d !! "Wait List"))) ∧
  (∀ text, all_digits text = true → text ≠ EmptyString →
     (0 ≤ decimalValue 0 text < 10 ^ Z.of_nat (String.length text))%Z ∧
     normalized (Some text) = JsNumber.of_Z (decimalValue 0 text)) ∧
  (∀ log, handler w = (log, Ok ()) →
     ∃ put_overview put_stub stub,
       log = [put_overview; put_stub] ∧
       body put_overview = OverviewCsv (map snd rows) ∧
       body put_stub = StubCsv stub ∧
       Forall2 (λ d r, Stub.WaitList r = normalized (d !! "Wait List")) sections stub).
Proof.
  intros Hcol. split; [done |]. split; [| split; [| split]].
  - intros d _. apply waitList_normalized.
  - intros key s Hin.
    destruct (collect_inv _ _ _ Hcol) as (courses & overview & _ & _ & _ & Hagg).
    destruct (aggregate_inv _ _ _ _ _ Hagg Hin) as (course & -> & _ & Hsum).
    destruct (summarize_inv _ _ _ Hsum) as (d0 & rest & course' & _ & _ & ->).
    exists course. split; [done |]. simpl.
    apply sum_ext, waitList_normalized.
  - intros text Hall Hne.
    destruct (StringToNumber_all_digits text Hall Hne) as (Hn & Heq).
    split; [done |]. unfold normalized.
    destruct (String.eqb_spec text "-") as [-> | _]; [discriminate Hall | done].
  - intros log Hrun.
    destruct (handler_Ok_published w log sections rows Hrun Hcol)
      as (put_overview & put_stub & stub & -> & Hoverview & Hstub & Hmirror).
    exists put_overview, put_stub, stub. repeat split; try done.
    eapply Forall2_impl; [exact Hmirror |]. intros d r Hdr. apply Hdr.
Qed.

Lemma waitlist_normalization_witness :
  normalized (Some "-") = JsNumber.zero ∧
  (∀ d, d ∈ Examples.plain_sections →
        Stub.WaitList (stubRow d) = normalized (d !! "Wait List")) ∧
  (∀ key s, (key, s) ∈ Examples.plain_rows →
     ∃ course,
       key = Some course ∧
       Summary.waitlist s
       = D3.sum (countableSections course Examples.plain_sections)
                (λ d, normalized (d !! "Wait List"))) ∧
  (∀ text, all_digits text = true → text ≠ EmptyString →
     (0 ≤ decimalValue 0 text < 10 ^ Z.of_nat (String.length text))%Z ∧
     normalized (Some text) = JsNumber.of_Z (decimalValue 0 text)) ∧
  (∀ log, handler Examples.plain_world = (log, Ok ()) →
     ∃ put_overview put_stub stub,
       log = [put_overview; put_stub] ∧
       body put_overview = OverviewCsv (map snd Examples.plain_rows) ∧
       body put_stub = StubCsv stub ∧
       Forall2 (λ d r, Stub.WaitList r = normalized (d !! "Wait List"))
               Examples.plain_sections stub).
Proof.
  apply (waitlist_normalization Examples.plain_world).
  reflexivity.
Defined.

(** C5 as stated fails: the run over a lecture without a Wait List label
    and a seminar whose Wait List reads -3 publishes NaN and -3 in the stub
    column and -3 as the waitlist of the course, none of them a non-negative
    integer. *)
Lemma waitlist_nonnegative_counterexample :
  handler Examples.waitlist_world
  = ([overviewCommand [Examples.waitlist_summary];
      stubCommand (publish_clock Examples.waitlist_world)
                  (map stubRow (Examples.fetched_in Examples.waitlist_world))],
     Ok ()) ∧
  map Stub.WaitList (map stubRow (Examples.fetched_in Examples.waitlist_world))
  = [JsNumber.NaN; JsNumber.of_Z (-3)] ∧
  Summary.waitlist Examples.waitlist_summary = JsNumber.of_Z (-3) ∧
  JsNumber.lt (JsNumber.of_Z (-3)) JsNumber.zero = true.
Proof. repeat split; reflexivity. Qed.

(** ** Countable sections *)

(** C2: a record is countable exactly when its Section label contains one
    of LEC, SEM, REC, IND as a substring; and a course none of whose fetched
    records is countable has no row in the rollup that the run publishes as
    the overview: every row of the published overview is the summary of
    another course, one that has a countable record.  The records of the
    course are nevertheless rows of the published stub table, which
    carries the fields of every fetched record, one row per record.  The
    run publishes both tables whenever S3 accepts them. *)
Theorem uncountable_course_dropped w sections rows course :
  collect w = Ok (sections, rows) →
  (∀ d, d ∈ sections → d !! "Course" = Some course → countable d ≠ Ok true) →
  (∀ d : SectionRecord,
     countable d = Ok true ↔
     ∃ label, d !! "Section" = Some label ∧
              (contains label "LEC" ∨ contains label "SEM" ∨
               contains label "REC" ∨ contains label "IND")) ∧
  (Some course ∉ map fst rows) ∧
  ((∀ key, s3_accepts w key = true) → ∃ log, handler w = (log, Ok ())) ∧
  (∀ log,
     handler w = (log, Ok ()) →
     ∃ put_overview put_stub stub,
       log = [put_overview; put_stub] ∧
       body put_overview = OverviewCsv (map snd rows) ∧
       (∀ s, s ∈ map snd rows →
          ∃ other d,
            other ≠ course ∧ (Some other, s) ∈ rows ∧
            d ∈ sections ∧ d !! "Course" = Some other ∧ countable d = Ok true ∧
            other = (Summary.department s ++ slice other (-3) None)%string ∧
            Summary.number s = JsNumber.StringToNumber (slice other (-3) None)) ∧
       body put_stub = StubCsv stub ∧
       Forall2 mirrors sections stub ∧
       (∀ d, d ∈ sections → d !! "Course" = Some course →
             ∃ r, r ∈ stub ∧ mirrors d r ∧ Stub.Course r = Some course)).
Proof.
  intros Hcol Hnone.
  destruct (collect_inv _ _ _ Hcol) as (courses & overview & _ & _ & _ & Hagg).
  assert (Habsent : Some course ∉ map fst rows).
  { intros Hin.
    destruct (rollup_key_record overview sections rows _ Hagg Hin) as (d & Hd & Hc & Hcount).
    by apply (Hnone d). }
  split; [apply countable_true_iff |]. split; [done |]. split.
  { intros Hs3. eexists. unfold handler, send. by rewrite Hcol, !Hs3. }
  intros log Hrun.
  destruct (handler_Ok_published w log sections rows Hrun Hcol)
    as (put_overview & put_stub & stub & -> & Hoverview & Hstub & Hmirror).
  exists put_overview, put_stub, stub.
  split; [done |]. split; [done |]. split; [| split; [done |]; split; [done |]].
  - intros s ([key s'] & <- & Hin)%list_elem_of_In%in_map_iff. simpl.
    apply list_elem_of_In in Hin.
    destruct (rollup_row_course overview sections rows key s' Hagg Hin)
      as (other & d & -> & Hd & Hc & Hcount & Hid & Hnumber).
    exists other, d. repeat split; try done.
    intros ->. apply Habsent. apply list_elem_of_In, in_map_iff.
    exists (Some course, s'). split; [done | by apply list_elem_of_In].
  - intros d Hd Hcourse. apply list_elem_of_lookup in Hd as [i Hi].
    destruct (Forall2_lookup_l _ _ _ _ _ Hmirror Hi) as (r & Hr & Hdr).
    exists r. split; [apply list_elem_of_lookup; eauto |]. split; [done |].
    destruct Hdr as [-> _]. done.
Qed.

Lemma uncountable_course_dropped_witness :
  (∀ d : SectionRecord,
     countable d = Ok true ↔
     ∃ label, d !! "Section" = Some label ∧
              (contains label "LEC" ∨ contains label "SEM" ∨
               contains label "REC" ∨ contains label "IND")) ∧
  (Some "MATH115" ∉ map fst Examples.plain_rows) ∧
  ((∀ key, s3_accepts Examples.discussion_world key = true) →
   ∃ log, handler Examples.discussion_world = (log, Ok ())) ∧
  (∀ log,
     handler Examples.discussion_world = (log, Ok ()) →
     ∃ put_overview put_stub stub,
       log = [put_overview; put_stub] ∧
       body put_overview = OverviewCsv (map snd Examples.plain_rows) ∧
       (∀ s, s ∈ map snd Examples.plain_rows →
          ∃ other d,
            other ≠ "MATH115" ∧ (Some other, s) ∈ Examples.plain_rows ∧
            d ∈ Examples.fetched_in Examples.discussion_world ∧
            d !! "Course" = Some other ∧ countable d = Ok true ∧
            other = (Summary.department s ++ slice other (-3) None)%string ∧
            Summary.number s = JsNumber.StringToNumber (slice other (-3) None)) ∧
       body put_stub = StubCsv stub ∧
       Forall2 mirrors (Examples.fetched_in Examples.discussion_world) stub ∧
       (∀ d, d ∈ Examples.fetched_in Examples.discussion_world →
             d !! "Course" = Some "MATH115" →
             ∃ r, r ∈ stub ∧ mirrors d r ∧ Stub.Course r = Some "MATH115")).
Proof.
  apply (uncountable_course_dropped Examples.discussion_world
           (Examples.fetched_in Examples.discussion_world)
           Examples.plain_rows "MATH115").
  - reflexivity.
  - apply (proj1 (Forall_forall
             (λ d : SectionRecord,
                d !! "Course" = Some "MATH115" → countable d ≠ Ok true) _)).
    apply (bool_decide_unpack _). by vm_compute.
Defined.

(** The run of [Examples.discussion_world]: the overview has the row of
    EECS485 only, the stub table has the three sections of EECS485 and the
    discussion section of MATH115. *)
Example discussion_course_run :
  handler Examples.discussion_world
  = ([overviewCommand [Examples.plain_summary];
      stubCommand (publish_clock Examples.discussion_world)
                  (map stubRow (Examples.fetched_in Examples.discussion_world))], Ok ()) ∧
  map Stub.Course (map stubRow (Examples.fetched_in Examples.discussion_world))
  = [Some "EECS485"; Some "EECS485"; Some "EECS485"; Some "MATH115"].
Proof. split; reflexivity. Qed.

(** ** The hint table *)




(** ** Rows with missing labels *)

(** C6, amended: extraction and aggregation are total over rows all of
    whose columns hold a colon and one of whose columns is labelled
    Section, for a catalog whose rows carry a course id.  Any other label
    may be missing: the record of a row simply lacks the fields of the
    labels the row omits, and the run publishes both tables.  A column
    without a colon makes the extractor throw, a record without a Section
    makes the countable filter throw, and a countable record without a
    Course makes the reducer throw; each ends the run before any publish. *)
Theorem labelled_rows_complete w cache :
  catalog w = Response true cache →
  ((∀ r, r ∈ cache → is_Some (course r)) →
   (∀ content, detail w content ≠ Rejected) →
   (∀ content page row,
      detail w content = Response true page → row ∈ page →
      (∀ text, text ∈ row → includes text ":" = true) ∧
      (∃ text, text ∈ row ∧ labelOf text = "Section")) →
   (∃ overview, getOverview w = Ok overview) →
   (∀ key, s3_accepts w key = true) →
   ∃ sections rows,
     collect w = Ok (sections, rows) ∧
     handler w = ([overviewCommand (map snd rows);
                   stubCommand (publish_clock w) (map stubRow sections)], Ok ()) ∧
     published w (map snd rows) sections) ∧
  (∀ name time title row label,
     (∀ text, text ∈ row → includes text ":" = true) →
     label ∉ ["Course"; "Time"; "title"] →
     (∀ text, text ∈ row → labelOf text ≠ label) →
     ∃ d, extractRow name time title row = Ok d ∧ d !! label = None) ∧
  (∀ entry page row text,
     entry ∈ entriesOf cache →
     detail w (contentOf (fst entry) (snd entry)) = Response true page →
     row ∈ page → text ∈ row → includes text ":" = false →
     (∀ section, extractColumn section text = Throw TypeError) ∧
     getCourseSections w (List.last (split "_" term) EmptyString) entry = Throw TypeError ∧
     ∃ e, handler w = ([], Throw e)) ∧
  (∀ sections d,
     getSections w (Some (entriesOf cache)) term = Ok sections → d ∈ sections →
     (d !! "Section" = None →
      countable d = Throw TypeError ∧ ∃ e, handler w = ([], Throw e)) ∧
     (countable d = Ok true → d !! "Course" = None →
      (∀ overview v, summarize overview (d :: v) = Throw TypeError) ∧
      ∃ e, handler w = ([], Throw e))).
Proof.
  intros Hcatalog. split; [| split; [| split]].
  - intros Hnamed Hresolved Hlabelled Hoverview Hs3.
    destruct (labelled_run_publishes w cache Hcatalog Hnamed Hresolved Hlabelled
                Hoverview Hs3) as (sections & rows & Hcollect & Hrun).
    exists sections, rows. split; [done |]. split; [done |].
    by apply published_intro in Hrun.
  - intros name time title row label Hcolon Hbase Hlabel.
    destruct (extractRow_colon name time title row Hcolon) as (d & Hd & _ & Hlack & _).
    exists d. split; [done |]. by apply Hlack.
  - intros [name info] page row text Hentry Hdetail Hrow Htext Hfree.
    assert (Hcall : getCourseSections w (List.last (split "_" term) EmptyString) (name, info)
                    = Throw TypeError).
    { unfold getCourseSections. unfold contentOf in Hdetail. cbn [fst snd] in Hdetail.
      rewrite Hdetail. by apply (extractRows_colonless _ _ _ _ _ row text). }
    split; [intros section; by apply extractColumn_colonless |]. split; [done |].
    by apply (getCourseSections_aborts w cache (name, info) TypeError).
  - intros sections d Hsections Hd. split.
    + intros Hsection. split; [unfold countable; by rewrite Hsection |].
      apply (aggregate_aborts w cache sections Hcatalog Hsections).
      intros overview. by apply (sectionless_aggregate overview sections d).
    + intros Hcountable Hcourse. split.
      * intros overview v. unfold summarize. by rewrite Hcourse.
      * apply (aggregate_aborts w cache sections Hcatalog Hsections).
        intros overview. by apply (courseless_aggregate overview sections d).
Qed.

Lemma labelled_rows_complete_witness :
  (∃ sections rows,
     collect Examples.sparse_world = Ok (sections, rows) ∧
     handler Examples.sparse_world
     = ([overviewCommand (map snd rows);
         stubCommand (publish_clock Examples.sparse_world) (map stubRow sections)],
        Ok ()) ∧
     published Examples.sparse_world (map snd rows) sections) ∧
  ((∀ section, extractColumn section "Closed" = Throw TypeError) ∧
   getCourseSections Examples.colonless_world (List.last (split "_" term) EmptyString)
     (Some "EECS485", {| info_suffix := Some "001"; info_title := Some "Web Systems" |})
   = Throw TypeError ∧
   ∃ e, handler Examples.colonless_world = ([], Throw e)) ∧
  (∃ e, handler Examples.sectionless_world = ([], Throw e)) ∧
  (∃ e, handler Examples.courseless_world = ([], Throw e)).
Proof.
  split; [| split; [| split]].
  - apply (labelled_rows_complete Examples.sparse_world [Examples.eecs485] eq_refl).
    + intros r ->%list_elem_of_singleton. by eexists.
    + intros content. unfold Examples.sparse_world, Examples.world, Examples.only. simpl.
      destruct (String.eqb content "2420EECS485001"); discriminate.
    + intros content page row.
      unfold Examples.sparse_world, Examples.world, Examples.only. simpl.
      destruct (String.eqb content "2420EECS485001"); intros [= <-] Hrow.
      apply list_elem_of_singleton in Hrow as ->. split.
      * intros text Htext.
        repeat (apply elem_of_cons in Htext as [-> | Htext]); try reflexivity.
        by apply elem_of_nil in Htext.
      * exists "Section: 001 (LEC)". split; [left | reflexivity].
    + exists None. reflexivity.
    + reflexivity.
  - apply (labelled_rows_complete Examples.colonless_world [Examples.eecs485] eq_refl)
      with (page := [Examples.colonless_row]) (row := Examples.colonless_row).
    + left.
    + reflexivity.
    + left.
    + right. left.
    + reflexivity.
  - destruct (labelled_rows_complete Examples.sectionless_world [Examples.eecs485] eq_refl)
      as (_ & _ & _ & Hrecord).
    destruct (Hrecord (Examples.fetched_in Examples.sectionless_world)
                (Examples.record_of ["Open Seats: 5"; "Wait List: -"]))
      as [Hsectionless _]; [reflexivity | left |].
    apply Hsectionless. reflexivity.
  - destruct (labelled_rows_complete Examples.courseless_world _ eq_refl)
      as (_ & _ & _ & Hrecord).
    destruct (Hrecord (Examples.fetched_in Examples.courseless_world)
                Examples.courseless_lecture)
      as [_ Hcourseless]; [reflexivity | left |].
    apply Hcourseless; reflexivity.
Defined.

(** C6 as stated fails: a row with a column that holds no colon makes the
    extractor throw, and a row without a Section label makes the countable
    filter throw; either way the run ends with a TypeError and publishes
    nothing. *)
Lemma missing_label_counterexample :
  extractRow (Some "EECS485") "2023-01-09T15:00:00.000Z" (Some "Web Systems")
             Examples.colonless_row
  = Throw TypeError ∧
  handler Examples.colonless_world = ([], Throw TypeError) ∧
  (∃ d, Examples.fetched_in Examples.sectionless_world = [d] ∧ d !! "Section" = None) ∧
  handler Examples.sectionless_world = ([], Throw TypeError).
Proof.
  split; [reflexivity |]. split; [reflexivity |]. split; [| reflexivity].
  eexists. split; reflexivity.
Qed.

(** ** Failed detail fetches *)

(** C7, amended: a course whose detail fetch resolves with a non-success
    status yields the empty list, without an error, and the run is the run
    on the catalog without that course: on well-formed pages it publishes
    both tables.  Every published record stems from a schedule row of the
    page of another course, so the skipped course is named in the stub
    table or keyed in the overview only through a row of another page that
    has a column labelled Course.  A rejected fetch makes the call throw,
    and the run ends with an error before any publish. *)
Theorem detail_fetch_failure w cache name info :
  catalog w = Response true cache →
  (name, info) ∈ entriesOf cache →
  (∀ body,
     detail w (contentOf name info) = Response false body →
     getCourseSections w (List.last (split "_" term) EmptyString) (name, info) = Ok [] ∧
     handler w = handler (without name w) ∧
     (∀ sections rows,
        collect w = Ok (sections, rows) →
        (∀ d, d ∈ sections →
           ∃ r, r ∈ scheduleRows w cache ∧ fst (of_entry r) ≠ name ∧
                recordOf w r = Ok d ∧
                (d !! "Course" = name →
                 ∃ text, text ∈ columns r ∧ labelOf text = "Course")) ∧
        (∀ key, key ∈ map fst rows → ∃ d, d ∈ sections ∧ d !! "Course" = key)) ∧
     ((∀ r, r ∈ cache → is_Some (course r)) →
      (∀ content, detail w content ≠ Rejected) →
      labelledPages w →
      (∃ overview, getOverview w = Ok overview) →
      (∀ key, s3_accepts w key = true) →
      ∃ sections rows,
        collect w = Ok (sections, rows) ∧ published w (map snd rows) sections)) ∧
  (detail w (contentOf name info) = Rejected →
   getCourseSections w (List.last (split "_" term) EmptyString) (name, info)
   = Throw FetchError ∧
   ∃ e, handler w = ([], Throw e)).
Proof.
  intros Hcatalog Hin.
  assert (Hcall : getCourseSections w (List.last (split "_" term) EmptyString) (name, info)
                  = match detail w (contentOf name info) with
                    | Rejected => Throw FetchError
                    | Response false _ => Ok []
                    | Response true rows =>
                        extractRows name (info_title info) (clock w name) 0 rows
                    end) by reflexivity.
  split.
  - intros body Hdetail. rewrite Hdetail in Hcall. split; [done |]. split; [| split].
    + assert (Hsections :
        getSections (without name w)
                    (Some (entriesOf (filter (λ r, course r ≠ name) cache))) term
        = getSections w (Some (entriesOf cache)) term).
      { rewrite entriesOf_without.
        apply (getSections_skip w (entriesOf cache) name info);
          [apply new_Map_NoDup | done | done]. }
      unfold handler, collect, getCourses. cbn [without catalog].
      rewrite Hcatalog, !bind_Ok. fold (entriesOf cache).
      fold (entriesOf (filter (λ r, course r ≠ name) cache)).
      by rewrite Hsections.
    + intros sections rows Hcollect.
      destruct (collect_catalog w cache sections rows Hcatalog Hcollect)
        as (overview & Hsections & _ & Hagg).
      split.
      * intros d Hd. by apply (skipped_provenance w cache name info body sections).
      * intros key Hkey.
        destruct (rollup_key_record overview sections rows key Hagg Hkey) as (d & ? & ? & _).
        by exists d.
    + intros Hnamed Hresolved Hlabelled Hoverview Hs3.
      destruct (labelled_run_publishes w cache Hcatalog Hnamed Hresolved Hlabelled
                  Hoverview Hs3) as (sections & rows & Hcollect & Hrun).
      exists sections, rows. split; [done |]. by apply published_intro in Hrun.
  - intros Hdetail. rewrite Hdetail in Hcall. split; [done |].
    by apply (getCourseSections_aborts w cache (name, info) FetchError).
Qed.

Lemma detail_fetch_failure_witness :
  (getCourseSections Examples.missing_page_world (List.last (split "_" term) EmptyString)
     (Some "MATH115", {| info_suffix := Some "001"; info_title := Some "Calculus I" |})
   = Ok [] ∧
   handler Examples.missing_page_world
   = handler (without (Some "MATH115") Examples.missing_page_world) ∧
   ∃ sections rows,
     collect Examples.missing_page_world = Ok (sections, rows) ∧
     published Examples.missing_page_world (map snd rows) sections) ∧
  (getCourseSections Examples.unreachable_world (List.last (split "_" term) EmptyString)
     (Some "MATH115", {| info_suffix := Some "001"; info_title := Some "Calculus I" |})
   = Throw FetchError ∧
   ∃ e, handler Examples.unreachable_world = ([], Throw e)).
Proof.
  assert (Hnamed : ∀ r, r ∈ [Examples.eecs485; Examples.math115] → is_Some (course r)).
  { apply Forall_forall. repeat constructor; by eexists. }
  assert (Hresolved : ∀ content, detail Examples.missing_page_world content ≠ Rejected).
  { intros content. unfold Examples.missing_page_world, Examples.world, Examples.only.
    simpl. destruct (String.eqb content "2420EECS485001"); discriminate. }
  assert (Hlabelled : labelledPages Examples.missing_page_world).
  { intros content page.
    unfold Examples.missing_page_world, Examples.world, Examples.only. simpl.
    destruct (String.eqb content "2420EECS485001"); intros row [= <-]; revert row.
    apply Forall_forall. repeat apply List.Forall_cons; try apply List.Forall_nil;
      (split; [apply Forall_forall; repeat constructor
              | eexists; split; [left | reflexivity]]). }
  split.
  - destruct (detail_fetch_failure Examples.missing_page_world
                [Examples.eecs485; Examples.math115] (Some "MATH115")
                {| info_suffix := Some "001"; info_title := Some "Calculus I" |} eq_refl)
      as [Hskipped _].
    { apply (list_elem_of_further _ _ _ (list_elem_of_here _ _)). }
    destruct (Hskipped [] eq_refl) as (Hcall & Hrun & _ & Hgoes_on).
    split; [exact Hcall |]. split; [exact Hrun |].
    apply (Hgoes_on Hnamed Hresolved Hlabelled); [by exists None | reflexivity].
  - destruct (detail_fetch_failure Examples.unreachable_world
                [Examples.eecs485; Examples.math115] (Some "MATH115")
                {| info_suffix := Some "001"; info_title := Some "Calculus I" |} eq_refl)
      as [_ Hrejected].
    { apply (list_elem_of_further _ _ _ (list_elem_of_here _ _)). }
    apply Hrejected. reflexivity.
Defined.

(** C7 as stated fails: the detail page of MATH115 answers 404, yet a row
    of the page of EECS485 has a column labelled Course that reads MATH115,
    so the course is keyed in the published overview and named in the
    published stub table. *)
Lemma skipped_course_published_counterexample :
  (Some "MATH115", {| info_suffix := Some "001"; info_title := Some "Calculus I" |})
  ∈ entriesOf [Examples.eecs485; Examples.math115] ∧
  detail Examples.relabelled_course_world
         (contentOf (Some "MATH115")
                    {| info_suffix := Some "001"; info_title := Some "Calculus I" |})
  = Response false [] ∧
  collect Examples.relabelled_course_world
  = Ok (Examples.fetched_in Examples.relabelled_course_world,
        [(Some "MATH115", Examples.relabelled_course_summary)]) ∧
  published Examples.relabelled_course_world [Examples.relabelled_course_summary]
            (Examples.fetched_in Examples.relabelled_course_world) ∧
  ∃ d, Examples.fetched_in Examples.relabelled_course_world = [d] ∧
       d !! "Course" = Some "MATH115" ∧
       Stub.Course (stubRow d) = Some "MATH115".
Proof.
  split; [apply (list_elem_of_further _ _ _ (list_elem_of_here _ _)) |].
  split; [reflexivity |]. split; [reflexivity |]. split.
  - apply (published_intro _ _ _ (publish_clock Examples.relabelled_course_world)).
    reflexivity.
  - eexists. split; [reflexivity |]. split; reflexivity.
Qed.

(** The run of [Examples.missing_page_world] publishes the rows of EECS485
    only; the run of [Examples.unreachable_world] publishes nothing. *)
Example failed_detail_fetch_runs :
  handler Examples.missing_page_world
  = ([overviewCommand [Examples.plain_summary];
      stubCommand (publish_clock Examples.missing_page_world)
                  (map stubRow Examples.plain_sections)], Ok ()) ∧
  handler Examples.unreachable_world = ([], Throw FetchError).
Proof. split; reflexivity. Qed.

(** ** Identity fields of a summary *)

(** C9: in every aggregated summary, [number] is the numeric parse of the
    trailing three characters of the course id and [department] is the
    prefix before them; [undergrad] is the comparison [number < 500], and
    [studyAbroad] holds exactly when the id contains STDABRD. *)
Theorem summary_identity_fields overview sections rows key s :
  aggregate overview sections = Ok rows →
  (key, s) ∈ rows →
  ∃ course tail,
    key = Some course ∧
    course = (Summary.department s ++ tail)%string ∧
    String.length tail = min 3 (String.length course) ∧
    Summary.number s = JsNumber.StringToNumber tail ∧
    Summary.undergrad s = JsNumber.lt (Summary.number s) (JsNumber.of_Z 500) ∧
    (Summary.studyAbroad s = true ↔ contains course "STDABRD").
Proof.
  intros Hagg Hin.
  destruct (aggregate_inv _ _ _ _ _ Hagg Hin) as (course & -> & _ & Hsum).
  destruct (summarize_inv _ _ _ Hsum) as (d0 & rest & course' & Hv & Hc & ->).
  assert (course' = course) as ->.
  { assert (Hd0 : d0 ∈ countableSections course sections) by (rewrite Hv; left).
    apply list_elem_of_filter in Hd0 as [[Hk _] _]. congruence. }
  exists course, (slice course (-3) None). simpl.
  destruct (slice_last3 course) as [Hsplit Hlen].
  repeat split; try done.
  - by apply includes_contains.
  - by apply includes_contains.
Qed.

Lemma summary_identity_fields_witness :
  ∃ course tail,
    Some "EECS485" = Some course ∧
    course = (Summary.department Examples.plain_summary ++ tail)%string ∧
    String.length tail = min 3 (String.length course) ∧
    Summary.number Examples.plain_summary = JsNumber.StringToNumber tail ∧
    Summary.undergrad Examples.plain_summary =
      JsNumber.lt (Summary.number Examples.plain_summary) (JsNumber.of_Z 500) ∧
    (Summary.studyAbroad Examples.plain_summary = true ↔ contains course "STDABRD").
Proof.
  apply (summary_identity_fields None Examples.plain_sections Examples.plain_rows).
  - vm_compute. reflexivity.
  - left.
Defined.

(** ** The worker pool *)

(** C10: during the Section Fetcher phase at most 25 [getCourseSections]
    calls, hence at most 25 detail-page fetches, are in flight in every
    state the pool reaches, whatever the size of the catalog and whatever
    the order and outcome of the completions. *)
Theorem at_most_25_fetches_in_flight
    (entries : list (option string * Main.CourseInfo)) (events : list (nat * bool)) :
  length (Async.in_flight (Main.fetchPool entries events)) ≤ 25.
Proof.
  unfold Main.fetchPool. apply (run_bound Main.NUM_OPERATIONS).
  apply replenish_bound. simpl. lia.
Qed.

(** With forty courses the pool is full from the start, and stays full after
    two calls have completed. *)
Example pool_of_forty_courses (entry : option string * Main.CourseInfo) :
  length (Async.in_flight (Main.fetchPool (repeat entry 40) [])) = 25 ∧
  length (Async.in_flight (Main.fetchPool (repeat entry 40) [(0, false); (3, false)])) = 25.
Proof. split; reflexivity. Qed.

(** ** Fatal failures *)

(** C8: when the catalog fetch resolves with a non-success status, the run
    throws before any S3 command is issued: neither the overview key nor a
    stub key is written. *)
Theorem catalog_unavailable_aborts_before_publish (w : Main.World) cache :
  Main.catalog w = Main.Response false cache →
  Main.handler w = ([], Throw TypeError).
Proof.
  intros Hcat. unfold Main.handler, Main.collect, Main.getCourses.
  rewrite Hcat. reflexivity.
Qed.

Lemma catalog_unavailable_aborts_before_publish_witness :
  Main.handler Examples.no_catalog_world = ([], Throw TypeError).
Proof.
  apply (catalog_unavailable_aborts_before_publish Examples.no_catalog_world []).
  reflexivity.
Defined.

(** * Further properties of the run *)

(** ** The two publishes *)

(** X1: a run ends in one of three ways.  It throws before the first send,
    with a fetch, type or duplicate-key error and no S3 command issued; or
    the overview send is rejected and the stub is never sent; or the
    overview was accepted and the stub is sent after it, the run ending as
    that second send does. *)
Theorem publish_protocol w :
  (∃ e, handler w = ([], Throw e) ∧ collect w = Throw e ∧
        (e = FetchError ∨ e = TypeError ∨ e = DuplicateKey)) ∨
  (∃ sections rows,
     collect w = Ok (sections, rows) ∧
     s3_accepts w (Key (overviewCommand (map snd rows))) = false ∧
     handler w = ([overviewCommand (map snd rows)], Throw S3Error)) ∨
  (∃ sections rows,
     collect w = Ok (sections, rows) ∧
     s3_accepts w (Key (overviewCommand (map snd rows))) = true ∧
     handler w
     = ([overviewCommand (map snd rows);
         stubCommand (publish_clock w) (map stubRow sections)],
        send w (stubCommand (publish_clock w) (map stubRow sections)))).
Proof.
  unfold handler. destruct (collect w) as [[sections rows]|e] eqn:Hcollect.
  - right. cbv zeta.
    destruct (s3_accepts w (Key (overviewCommand (map snd rows)))) eqn:Hs3.
    + right. exists sections, rows.
      replace (send w (overviewCommand (map snd rows))) with (Ok ())
        by (unfold send; by rewrite Hs3).
      done.
    + left. exists sections, rows.
      replace (send w (overviewCommand (map snd rows))) with (@Throw () S3Error)
        by (unfold send; by rewrite Hs3).
      done.
  - left. exists e. split; [done |]. split; [done |]. by apply (collect_Throw w).
Qed.

(** X2: the stub object never lands on the key of the overview, and the
    stubs of two runs land on one key exactly when their rounded timestamps
    are the same. *)
Theorem stub_key_per_timestamp (now now' : string) (stub stub' : list Stub.row)
    (primary : list Summary.t) :
  Key (stubCommand now stub) ≠ Key (overviewCommand primary) ∧
  (Key (stubCommand now stub) = Key (stubCommand now' stub') ↔ now = now').
Proof.
  split.
  - cbv [Key stubCommand overviewCommand prefix String.append]. discriminate.
  - split; [| by intros ->].
    cbv [Key stubCommand]. intros Heq.
    apply append_inv_head, append_inv_head in Heq.
    by apply append_inv_tail in Heq.
Qed.

(** ** The courses Map *)

(** X3: the courses Map that [getCourses] builds from an available catalog
    holds every course id of the catalog exactly once, so each course is
    fetched once however often the catalog repeats it; a repeated id takes
    the suffix and the title of its last row. *)
Theorem courses_map_unique w cache :
  catalog w = Response true cache →
  getCourses w = Ok (Some (entriesOf cache)) ∧
  NoDup (map fst (entriesOf cache)) ∧
  (∀ name, name ∈ map fst (entriesOf cache) ↔ name ∈ map course cache) ∧
  (∀ before r after,
     cache = before ++ r :: after →
     (∀ r', r' ∈ after → course r' ≠ course r) →
     (course r, {| info_suffix := suffix r; info_title := title r |})
     ∈ entriesOf cache).
Proof.
  intros Hcatalog. split; [| split; [| split]].
  - unfold getCourses. by rewrite Hcatalog.
  - apply new_Map_NoDup.
  - intros name. unfold entriesOf. rewrite new_Map_keys, map_map. done.
  - intros before r after -> Hafter. unfold entriesOf.
    rewrite map_app. simpl. apply new_Map_last.
    intros kv (r' & <- & Hr')%list_elem_of_In%in_map_iff. simpl.
    apply Hafter. by apply list_elem_of_In.
Qed.

(** ** Extraction *)

(** X4: a column whose text reads [key: value], up to white space around
    it, sets the field [key] to the trimmed [value] and leaves every other
    field as it was; the label is cut at the first colon and the value at
    the second, so in "Time: 10:30" the field Time is "10".  The label
    __proto__ is the exception: such a column leaves the record as it
    was. *)
Theorem column_sets_field (section : SectionRecord) (pad key value text : string) :
  trimStart pad = EmptyString →
  trimStart key = key →
  includes key ":" = false →
  includes value ":" = false →
  (text = (pad ++ key ++ String ":" value)%string ∨
   ∃ rest, text = (pad ++ key ++ String ":" (value ++ String ":" rest))%string) →
  ∃ d, extractColumn section text = Ok d ∧
       (key ≠ "__proto__" → d !! key = Some (trim value)) ∧
       (key = "__proto__" → d = section) ∧
       (∀ label, label ≠ key → d !! label = section !! label).
Proof.
  intros Hpad Hstart Hkey Hvalue Htext.
  destruct (extractColumn_labelled section pad key value Hpad Hstart Hkey Hvalue)
    as [Hplain Hmore].
  exists (set_property section key (trim value)). split; [| split; [| split]].
  - destruct Htext as [-> | [rest ->]]; [done | apply Hmore].
  - by apply set_property_same.
  - intros ->. reflexivity.
  - intros label Hlabel. by apply set_property_other.
Qed.

(** X5: every record that the extractor emits has a Time, and a Course and
    a title whenever the catalog entry has them.  They are the course id
    and the title of the catalog entry and the time of the scrape, unless
    the row has a column with that very label. *)
Theorem record_identity name time title (row : list string) (d : SectionRecord) :
  extractRow name time title row = Ok d →
  (is_Some (d !! "Time") ∧
   (is_Some name → is_Some (d !! "Course")) ∧
   (is_Some title → is_Some (d !! "title"))) ∧
  ((∀ text, text ∈ row → labelOf text ≠ "Course") → d !! "Course" = name) ∧
  ((∀ text, text ∈ row → labelOf text ≠ "Time") → d !! "Time" = Some time) ∧
  ((∀ text, text ∈ row → labelOf text ≠ "title") → d !! "title" = title).
Proof. apply extractRow_Ok_inv. Qed.

(** X6: when the run gets as far as the first publish, every fetched
    record has a Time and a Section, a Course when the rows of the catalog
    carry a course id and a title when they carry a title; and every row of
    a stub table that the run sends has a Time and a Section, and a Course
    when the rows of the catalog carry a course id. *)
Theorem fetched_records_complete w cache sections rows :
  catalog w = Response true cache →
  collect w = Ok (sections, rows) →
  (∀ d, d ∈ sections →
     is_Some (d !! "Time") ∧ is_Some (d !! "Section") ∧
     ((∀ c, c ∈ cache → is_Some (course c)) → is_Some (d !! "Course")) ∧
     ((∀ c, c ∈ cache → is_Some (title c)) → is_Some (d !! "title"))) ∧
  (∀ log result command stub,
     handler w = (log, result) → command ∈ log → body command = StubCsv stub →
     ∀ r, r ∈ stub →
       is_Some (Stub.Time r) ∧ is_Some (Stub.Section_ r) ∧
       ((∀ c, c ∈ cache → is_Some (course c)) → is_Some (Stub.Course r))).
Proof.
  intros Hcatalog Hcollect.
  assert (Hrecords : ∀ d, d ∈ sections →
     is_Some (d !! "Time") ∧ is_Some (d !! "Section") ∧
     ((∀ c, c ∈ cache → is_Some (course c)) → is_Some (d !! "Course")) ∧
     ((∀ c, c ∈ cache → is_Some (title c)) → is_Some (d !! "title"))).
  { intros d Hd.
    destruct (collect_catalog w cache sections rows Hcatalog Hcollect)
      as (overview & Hsections & _ & Hagg).
    destruct (fetched_record_fields w cache sections d Hsections Hd) as (? & ? & ?).
    repeat split; try done.
    unfold aggregate in Hagg. apply bind_Ok_inv in Hagg as (primary & Hfilter & _).
    apply filterM_Ok in Hfilter as [_ Hall].
    destruct (Hall d Hd) as [b Hb]. unfold countable in Hb.
    by destruct (d !! "Section"). }
  split; [done |].
  intros log result command stub Hrun Hcommand Hbody r Hr.
  assert (Hstub : stub = map stubRow sections).
  { unfold handler in Hrun. rewrite Hcollect in Hrun.
    destruct (send w (overviewCommand (map snd rows))) as [[]|];
      injection Hrun as <- _;
      repeat (apply elem_of_cons in Hcommand as [-> | Hcommand]);
      try (by apply elem_of_nil in Hcommand); simpl in Hbody; congruence. }
  subst stub. apply list_elem_of_In, in_map_iff in Hr as (d & <- & Hd).
  apply list_elem_of_In in Hd. destruct (Hrecords d Hd) as (? & ? & ? & _).
  by repeat split.
Qed.

(** ** The rollup *)

(** X7: the rollup has at most one row per course id, and it has a row for
    a course id exactly when some fetched record of that course is
    countable. *)
Theorem one_row_per_countable_course overview sections rows :
  aggregate overview sections = Ok rows →
  NoDup (map fst rows) ∧
  ∀ key, key ∈ map fst rows ↔
         ∃ course, key = Some course ∧ countableSections course sections ≠ [].
Proof.
  intros Hagg. pose proof Hagg as Hagg'. unfold aggregate in Hagg'.
  apply bind_Ok_inv in Hagg' as (primary & Hfilter & Hroll).
  apply filterM_Ok in Hfilter as [-> _].
  pose proof (rollups_keys _ _ _ _ _ Hroll) as Hkeys.
  destruct (groups_spec key_eqb (λ d : SectionRecord, d !! "Course") key_eqb_eq
              (filter (λ x, countable x = Ok true) sections)) as (Hnd & Hcover & _).
  split; [by rewrite Hkeys |]. intros key. split.
  - intros ([key' s] & <- & Hin)%list_elem_of_In%in_map_iff. simpl.
    apply list_elem_of_In in Hin.
    destruct (aggregate_inv _ _ _ _ _ Hagg Hin) as (course & -> & Hne & _).
    by exists course.
  - intros (course & -> & Hne). rewrite Hkeys.
    destruct (countableSections course sections) as [|d ds] eqn:Hcs; [done |].
    assert (Hd : d ∈ countableSections course sections) by (rewrite Hcs; left).
    apply list_elem_of_filter in Hd as [[Hcourse Hcountable] Hd].
    rewrite <- Hcourse. apply (Hcover d). by apply list_elem_of_filter.
Qed.

(** ** A key shared by two prior rows *)

(** X8: when two rows of the prior overview are filed under one key, that
    is, when the department and number of one row spell what those of
    another row spell, [getOverview] throws the duplicate-key error of
    [index] and the run ends without publishing anything. *)
Theorem duplicate_prior_key_aborts w overview i j r1 r2 text :
  prior w = Response true overview →
  i ≠ j → overview !! i = Some r1 → overview !! j = Some r2 →
  hintKey r1 = VStr text → hintKey r2 = VStr text →
  getOverview w = Throw DuplicateKey ∧ ∃ e, handler w = ([], Throw e).
Proof.
  intros Hprior Hij Hi Hj H1 H2.
  assert (Hov : getOverview w = Throw DuplicateKey).
  { unfold getOverview. rewrite Hprior.
    by rewrite (index_duplicate overview (λ d, plus (Prior.department d) (Prior.number d))
                 i j r1 r2 text Hij Hi Hj H1 H2). }
  split; [done |]. unfold handler, collect.
  destruct (getCourses w) as [courses|e1]; simpl; [| by exists e1].
  destruct (getSections w courses term) as [sections|e2]; simpl; [| by exists e2].
  rewrite Hov. simpl. by exists DuplicateKey.
Qed.

(** ** The pool *)

(** X9: the pool takes the courses from the courses Map in its order and
    each entry once: in every state it reaches, what it has taken so far is
    a prefix of the entries, what it has not is the rest, and the calls in
    flight are among the taken ones, in that order. *)
Theorem fetches_start_in_catalog_order
    (entries : list (option string * CourseInfo)) (events : list (nat * bool)) :
  ∃ started,
    entries = started ++ Async.rest (fetchPool entries events) ∧
    Async.in_flight (fetchPool entries events) `sublist_of` started.
Proof.
  unfold fetchPool. apply run_order. by apply (replenish_order _ _ []).
Qed.

(** X10: as long as courses are left to take and no call has failed, 25
    calls are in flight: the pool never idles below its limit. *)
Theorem pool_stays_full
    (entries : list (option string * CourseInfo)) (events : list (nat * bool)) :
  Async.done (fetchPool entries events) = false →
  Async.rest (fetchPool entries events) ≠ [] →
  length (Async.in_flight (fetchPool entries events)) = 25.
Proof.
  unfold fetchPool. apply run_saturated, replenish_saturated. simpl. lia.
Qed.

(** X11: after a call in flight has failed, no further course is taken from
    the courses Map, whatever completes afterwards; the calls already in
    flight run out. *)
Theorem no_fetch_started_after_failure
    (entries : list (option string * CourseInfo)) (events more : list (nat * bool)) (i : nat) :
  is_Some (Async.in_flight (fetchPool entries events) !! i) →
  Async.rest (fetchPool entries (events ++ (i, true) :: more))
  = Async.rest (fetchPool entries events) ∧
  Async.in_flight (fetchPool entries (events ++ (i, true) :: more))
  `sublist_of` Async.in_flight (fetchPool entries events).
Proof.
  intros [elem Hi]. unfold fetchPool in *. rewrite run_app.
  set (p := Async.run NUM_OPERATIONS events (Async.start NUM_OPERATIONS entries)) in *.
  change (Async.run NUM_OPERATIONS ((i, true) :: more) p)
    with (Async.run NUM_OPERATIONS more (Async.settle NUM_OPERATIONS i true p)).
  assert (Hsettle : Async.settle NUM_OPERATIONS i true p
                    = Async.Pool (Async.rest p) (delete i (Async.in_flight p)) true).
  { unfold Async.settle. by rewrite Hi. }
  destruct (run_done NUM_OPERATIONS more (Async.settle NUM_OPERATIONS i true p))
    as [Hrest Hsub]; [by rewrite Hsettle |].
  split; [by rewrite Hrest, Hsettle |].
  etrans; [apply Hsub |]. rewrite Hsettle. apply sublist_delete.
Qed.

(** ** Records and schedule rows *)

(** X12: when several columns of a row carry the same label, the record
    holds the value of the last of them: the field of a label is the trimmed
    second piece of the last column with that label. *)
Theorem last_column_of_a_label_wins name time title
    (before after : list string) (text : string) (d : SectionRecord) :
  extractRow name time title (before ++ text :: after) = Ok d →
  (∀ text', text' ∈ after → labelOf text' ≠ labelOf text) →
  labelOf text ≠ "__proto__" →
  ∃ value pieces,
    split ":" (trim text) = labelOf text :: value :: pieces ∧
    d !! labelOf text = Some (trim value).
Proof.
  unfold extractRow. rewrite extractColumns_app. intros Hrow Hafter Hproto.
  apply bind_Ok_inv in Hrow as (section & _ & Hrow). simpl in Hrow.
  apply bind_Ok_inv in Hrow as (section' & Hcol & Hrow).
  unfold extractColumn in Hcol. unfold labelOf in *.
  destruct (split ":" (trim text)) as [|key [|value pieces]] eqn:Hsplit; try done.
  injection Hcol as <-. exists value, pieces. split; [done |]. simpl in *.
  apply extractColumns_Ok_inv in Hrow as [_ Hother].
  rewrite (Hother key); [by apply set_property_same |].
  intros text' Hin. by apply Hafter.
Qed.

(** X13: the fetched records, and with them the rows of the stub table, are
    the records of the schedule rows of the pages that responded [ok], page
    by page in the order of the courses Map and each page from top to
    bottom; the Time of a record is the clock reading at its row. *)
Theorem records_follow_schedule_rows w cache sections rows :
  catalog w = Response true cache →
  collect w = Ok (sections, rows) →
  Forall2 (λ d r, recordOf w r = Ok d) sections (scheduleRows w cache) ∧
  length (map stubRow sections) = length (scheduleRows w cache).
Proof.
  intros Hcatalog Hcollect.
  destruct (collect_inv _ _ _ Hcollect) as (courses & overview & Hcourses & Hsections & _).
  unfold getCourses in Hcourses. rewrite Hcatalog in Hcourses. injection Hcourses as <-.
  fold (entriesOf cache) in Hsections.
  unfold getSections, Async.mapLimit, NUM_OPERATIONS in Hsections. cbv iota beta in Hsections.
  apply bind_Ok_inv in Hsections as (lists & Hmap & [= <-]).
  apply mapM_Ok_Forall2 in Hmap.
  assert (Hall : Forall2 (λ d r, recordOf w r = Ok d) (concat lists) (scheduleRows w cache))
    by (by apply mapLimit_numbered).
  split; [done |]. rewrite length_map. by apply Forall2_length in Hall.
Qed.

(** ** The overview *)

(** X14: the rows of the overview come in the order in which the courses
    first show a countable section among the fetched records. *)
Theorem overview_rows_in_order_of_first_section overview sections rows :
  aggregate overview sections = Ok rows →
  map fst rows
  = firstMentions (map (λ d : SectionRecord, d !! "Course")
                       (filter (λ d, countable d = Ok true) sections)).
Proof.
  unfold aggregate. intros Hagg.
  apply bind_Ok_inv in Hagg as (primary & Hfilter & Hroll).
  apply filterM_Ok in Hfilter as [-> _].
  rewrite (rollups_keys _ _ _ _ _ Hroll). apply groups_firstMentions.
Qed.

(** X15: for a course id that ends in three decimal digits, [number] is the
    integer they denote and [undergrad] holds exactly when it is below 500;
    and whenever [number] is NaN, [undergrad] is false. *)
Theorem undergrad_below_500 overview sections rows key s :
  aggregate overview sections = Ok rows →
  (key, s) ∈ rows →
  (JsNumber.isNaN (Summary.number s) = true → Summary.undergrad s = false) ∧
  (∀ department a b c,
     key = Some (department ++ String a (String b (String c EmptyString)))%string →
     all_digits (String a (String b (String c EmptyString))) = true →
     Summary.department s = department ∧
     Summary.number s = JsNumber.of_Z (courseNumber a b c) ∧
     Summary.undergrad s = (courseNumber a b c <? 500)%Z).
Proof.
  intros Hagg Hin.
  destruct (aggregate_inv _ _ _ _ _ Hagg Hin) as (course & -> & Hne & Hsum).
  destruct (summarize_inv _ _ _ Hsum) as (d0 & rest & course' & Hv & Hc & ->).
  assert (course' = course) as ->.
  { assert (Hd0 : d0 ∈ countableSections course sections) by (rewrite Hv; left).
    apply list_elem_of_filter in Hd0 as [[Hcourse _] _]. congruence. }
  cbn [Summary.number Summary.undergrad Summary.department]. split.
  - unfold JsNumber.lt, JsNumber.isNaN.
    by destruct (ToNumber (VStr (slice course (-3) None))) as [| | |].
  - intros department a b c [= ->] Hdigits.
    destruct (slice_append3 department (String a (String b (String c EmptyString))))
      as [-> ->]; [done |].
    apply three_digits_classified in Hdigits. unfold classified in Hdigits.
    apply andb_true_iff in Hdigits as [Hnumber Hlt].
    apply same_eq in Hnumber. apply Bool.eqb_prop in Hlt.
    cbn [ToNumber]. by rewrite <- Hlt, Hnumber.
Qed.

(** ** Where the run writes *)

(** X16: every object that a run writes goes to the bucket under the
    prefix of the term, as text/csv, and never to the key of the catalog of
    courses that the run reads. *)
Theorem publishes_only_under_prefix w command :
  command ∈ (handler w).1 →
  Bucket command = bucket ∧
  ContentType command = "text/csv" ∧
  String.prefix (prefix ++ "/") (Key command) = true ∧
  Key command ≠ catalogKey.
Proof.
  intros [[primary ->] | [stub ->]]%handler_log.
  - split; [done |]. split; [done |]. split; [reflexivity |].
    by intros H; vm_compute in H.
  - split; [done |]. split; [done |]. split; [reflexivity |].
    unfold stubCommand, catalogKey, prefix. cbn [Key]. intros H.
    apply (append_inv_head "course-tracker/winter-2023/") in H. discriminate H.
Qed.

(** ** Counts and titles *)

(** X17: a countable section whose Open Seats (or Wait List) is missing or
    does not parse is left out of the sum of its course instead of turning
    it into NaN: [available] and [waitlist] are the sums over the countable
    sections whose count is a number. *)
Theorem unparsed_counts_left_out overview sections rows key s :
  aggregate overview sections = Ok rows →
  (key, s) ∈ rows →
  ∃ course,
    key = Some course ∧
    Summary.available s
    = D3.sum (filter (λ d, JsNumber.isNaN (openSeats d) = false)
                     (countableSections course sections)) openSeats ∧
    Summary.waitlist s
    = D3.sum (filter (λ d, JsNumber.isNaN (waitList d) = false)
                     (countableSections course sections)) waitList ∧
    (∀ d : SectionRecord,
       d !! "Open Seats" = None →
       JsNumber.isNaN (openSeats d) = true ∧ D3.sum [d] openSeats = JsNumber.zero).
Proof.
  intros Hagg Hin.
  destruct (aggregate_inv _ _ _ _ _ Hagg Hin) as (course & -> & _ & Hsum).
  destruct (summarize_inv _ _ _ Hsum) as (d0 & rest & course' & _ & _ & ->).
  exists course. cbn [Summary.available Summary.waitlist].
  rewrite !sum_skips_NaN. split; [done |]. split; [done |]. split; [done |].
  intros d Hd. unfold D3.sum, openSeats. simpl. by rewrite Hd.
Qed.


(** ** Sample instances *)

Lemma courses_map_unique_witness :
  getCourses Examples.repeated_world = Ok (Some (entriesOf Examples.repeated_catalog)) ∧
  NoDup (map fst (entriesOf Examples.repeated_catalog)) ∧
  (∀ name, name ∈ map fst (entriesOf Examples.repeated_catalog)
           ↔ name ∈ map course Examples.repeated_catalog) ∧
  (∀ before r after,
     Examples.repeated_catalog = before ++ r :: after →
     (∀ r', r' ∈ after → course r' ≠ course r) →
     (course r, {| info_suffix := suffix r; info_title := title r |})
     ∈ entriesOf Examples.repeated_catalog).
Proof.
  apply (courses_map_unique Examples.repeated_world Examples.repeated_catalog).
  reflexivity.
Defined.

Lemma column_sets_field_witness :
  ∃ d, extractColumn ∅ "  Open Seats: 5 :30" = Ok d ∧
       ("Open Seats" ≠ "__proto__" → d !! "Open Seats" = Some (trim " 5 ")) ∧
       ("Open Seats" = "__proto__" → d = ∅) ∧
       (∀ label, label ≠ "Open Seats" → d !! label = (∅ : SectionRecord) !! label).
Proof.
  apply (column_sets_field ∅ "  " "Open Seats" " 5 " "  Open Seats: 5 :30");
    try reflexivity.
  right. by exists "30".
Defined.

Lemma record_identity_witness :
  (is_Some (Examples.record_of Examples.relabelled_row !! "Time") ∧
   (is_Some (Some "EECS485") →
    is_Some (Examples.record_of Examples.relabelled_row !! "Course")) ∧
   (is_Some (Some "Web Systems") →
    is_Some (Examples.record_of Examples.relabelled_row !! "title"))) ∧
  ((∀ text, text ∈ Examples.relabelled_row → labelOf text ≠ "Course") →
   Examples.record_of Examples.relabelled_row !! "Course" = Some "EECS485") ∧
  ((∀ text, text ∈ Examples.relabelled_row → labelOf text ≠ "Time") →
   Examples.record_of Examples.relabelled_row !! "Time" = Some "2023-01-09T15:00:00.000Z") ∧
  ((∀ text, text ∈ Examples.relabelled_row → labelOf text ≠ "title") →
   Examples.record_of Examples.relabelled_row !! "title" = Some "Web Systems").
Proof.
  apply (record_identity (Some "EECS485") "2023-01-09T15:00:00.000Z" (Some "Web Systems")
                         Examples.relabelled_row).
  reflexivity.
Defined.

Lemma last_column_of_a_label_wins_witness :
  ∃ value pieces,
    split ":" (trim "Section: 002 (SEM)")
    = labelOf "Section: 002 (SEM)" :: value :: pieces ∧
    Examples.record_of Examples.relabelled_row !! labelOf "Section: 002 (SEM)"
    = Some (trim value).
Proof.
  apply (last_column_of_a_label_wins (Some "EECS485") "2023-01-09T15:00:00.000Z"
           (Some "Web Systems")
           ["Section: 001 (LEC)"] ["Open Seats: 5"] "Section: 002 (SEM)").
  - reflexivity.
  - intros text' ->%list_elem_of_singleton. vm_compute. discriminate.
  - vm_compute. discriminate.
Defined.

Lemma fetched_records_complete_witness :
  (∀ d, d ∈ Examples.plain_sections →
     is_Some (d !! "Time") ∧ is_Some (d !! "Section") ∧
     ((∀ c, c ∈ [Examples.eecs485] → is_Some (course c)) → is_Some (d !! "Course")) ∧
     ((∀ c, c ∈ [Examples.eecs485] → is_Some (title c)) → is_Some (d !! "title"))) ∧
  (∀ log result command stub,
     handler Examples.plain_world = (log, result) → command ∈ log →
     body command = StubCsv stub →
     ∀ r, r ∈ stub →
       is_Some (Stub.Time r) ∧ is_Some (Stub.Section_ r) ∧
       ((∀ c, c ∈ [Examples.eecs485] → is_Some (course c)) → is_Some (Stub.Course r))).
Proof.
  apply (fetched_records_complete Examples.plain_world [Examples.eecs485]
           Examples.plain_sections Examples.plain_rows).
  - reflexivity.
  - reflexivity.
Defined.

Lemma records_follow_schedule_rows_witness :
  Forall2 (λ d r, recordOf Examples.discussion_world r = Ok d)
          (Examples.fetched_in Examples.discussion_world)
          (scheduleRows Examples.discussion_world [Examples.eecs485; Examples.math115]) ∧
  length (map stubRow (Examples.fetched_in Examples.discussion_world))
  = length (scheduleRows Examples.discussion_world [Examples.eecs485; Examples.math115]).
Proof.
  apply (records_follow_schedule_rows Examples.discussion_world
           [Examples.eecs485; Examples.math115]
           (Examples.fetched_in Examples.discussion_world)
           (Examples.rows_in Examples.discussion_world)).
  - reflexivity.
  - reflexivity.
Defined.

Lemma one_row_per_countable_course_witness :
  NoDup (map fst Examples.plain_rows) ∧
  ∀ key, key ∈ map fst Examples.plain_rows ↔
         ∃ course, key = Some course ∧
                   countableSections course Examples.plain_sections ≠ [].
Proof.
  apply (one_row_per_countable_course None Examples.plain_sections Examples.plain_rows).
  vm_compute. reflexivity.
Defined.

Lemma overview_rows_in_order_of_first_section_witness :
  map fst (Examples.rows_in Examples.discussion_world)
  = firstMentions (map (λ d : SectionRecord, d !! "Course")
                       (filter (λ d, countable d = Ok true)
                               (Examples.fetched_in Examples.discussion_world))).
Proof.
  apply (overview_rows_in_order_of_first_section None).
  vm_compute. reflexivity.
Defined.

Lemma undergrad_below_500_witness :
  (JsNumber.isNaN (Summary.number Examples.plain_summary) = true →
   Summary.undergrad Examples.plain_summary = false) ∧
  (∀ department a b c,
     Some "EECS485" = Some (department ++ String a (String b (String c EmptyString)))%string →
     all_digits (String a (String b (String c EmptyString))) = true →
     Summary.department Examples.plain_summary = department ∧
     Summary.number Examples.plain_summary = JsNumber.of_Z (courseNumber a b c) ∧
     Summary.undergrad Examples.plain_summary = (courseNumber a b c <? 500)%Z).
Proof.
  apply (undergrad_below_500 None Examples.plain_sections Examples.plain_rows).
  - vm_compute. reflexivity.
  - left.
Defined.

Lemma duplicate_prior_key_aborts_witness :
  getOverview Examples.duplicated_world = Throw DuplicateKey ∧
  ∃ e, handler Examples.duplicated_world = ([], Throw e).
Proof.
  apply (duplicate_prior_key_aborts Examples.duplicated_world Examples.duplicated_table
           0 1 (Examples.eecs485_prior (VNum (JsNumber.of_Z 100)))
           (Examples.eecs485_prior (VNum (JsNumber.of_Z 200))) "EECS485").
  - reflexivity.
  - lia.
  - reflexivity.
  - reflexivity.
  - vm_compute. reflexivity.
  - vm_compute. reflexivity.
Defined.

Lemma pool_stays_full_witness :
  length (Async.in_flight (fetchPool (repeat Examples.eecs485_entry 40) [(0, false)])) = 25.
Proof.
  apply (pool_stays_full (repeat Examples.eecs485_entry 40) [(0, false)]).
  - reflexivity.
  - vm_compute. discriminate.
Defined.

Lemma no_fetch_started_after_failure_witness :
  Async.rest (fetchPool (repeat Examples.eecs485_entry 40)
                        ([(0, false)] ++ (3, true) :: [(0, false)]))
  = Async.rest (fetchPool (repeat Examples.eecs485_entry 40) [(0, false)]) ∧
  Async.in_flight (fetchPool (repeat Examples.eecs485_entry 40)
                             ([(0, false)] ++ (3, true) :: [(0, false)]))
  `sublist_of` Async.in_flight (fetchPool (repeat Examples.eecs485_entry 40) [(0, false)]).
Proof.
  apply (no_fetch_started_after_failure (repeat Examples.eecs485_entry 40)
           [(0, false)] [(0, false)] 3).
  vm_compute. by eexists.
Defined.

Lemma publishes_only_under_prefix_witness :
  Bucket (overviewCommand [Examples.plain_summary]) = bucket ∧
  ContentType (overviewCommand [Examples.plain_summary]) = "text/csv" ∧
  String.prefix (prefix ++ "/") (Key (overviewCommand [Examples.plain_summary])) = true ∧
  Key (overviewCommand [Examples.plain_summary]) ≠ catalogKey.
Proof.
  apply (publishes_only_under_prefix Examples.plain_world).
  left.
Defined.

Lemma unparsed_counts_left_out_witness :
  ∃ course,
    Some "EECS485" = Some course ∧
    Summary.available Examples.sparse_summary
    = D3.sum (filter (λ d, JsNumber.isNaN (openSeats d) = false)
                     (countableSections course (Examples.fetched_in Examples.sparse_world)))
             openSeats ∧
    Summary.waitlist Examples.sparse_summary
    = D3.sum (filter (λ d, JsNumber.isNaN (waitList d) = false)
                     (countableSections course (Examples.fetched_in Examples.sparse_world)))
             waitList ∧
    (∀ d : SectionRecord,
       d !! "Open Seats" = None →
       JsNumber.isNaN (openSeats d) = true ∧ D3.sum [d] openSeats = JsNumber.zero).
Proof.
  apply (unparsed_counts_left_out None (Examples.fetched_in Examples.sparse_world)
           [(Some "EECS485", Examples.sparse_summary)]).
  - vm_compute. reflexivity.
  - left.
Defined.

